(** * go-archiguard: layer classification and dependency-rule checking

    A shallow embedding of [main.go].  Go strings are byte strings
    ([string] of [ascii]); Go maps are [gmap]s together with an explicit
    visiting order wherever the order of a [range] loop is observable;
    [fmt.Printf] appends a structured line to the standard output kept in
    the state of a small state monad. *)

From Stdlib Require Import String Ascii List Bool.
From stdpp Require Import base option list gmap strings fin_maps.

Local Open Scope list_scope.
#[local] Set Warnings "-clear-no-such-hyp,-register-all,-notation-for-abbreviation".

(** ** The parts of Go's [strings] package the program calls *)

Module Strings.

(** [strings.HasPrefix(s, prefix)]. *)
Definition HasPrefix (s pre : string) : bool := String.prefix pre s.

(** [strings.Contains(s, substr)]: some suffix of [s] starts with
    [substr]. *)
Fixpoint Contains (s substr : string) : bool :=
  String.prefix substr s
  || match s with
     | EmptyString => false
     | String _ s' => Contains s' substr
     end.

(** The scanning loop of [strings.Split] for a non-empty separator.
    [cur] is the piece being accumulated, [skip] the number of bytes of
    an already recognised separator still to be passed over. *)
Fixpoint genSplit (skip : nat) (cur s sep : string) : list string :=
  match s with
  | EmptyString => [cur]
  | String c s' =>
      match skip with
      | S k => genSplit k cur s' sep
      | O =>
          if String.prefix sep s
          then cur :: genSplit (String.length sep - 1) EmptyString s' sep
          else genSplit O (cur +:+ String c EmptyString) s' sep
      end
  end.

(** [strings.Split(s, sep)].  With an empty separator Go cuts after each
    UTF-8 sequence; the byte-wise cut below agrees with it on ASCII
    input.  The program only ever splits on ["*"]. *)
Definition Split (s sep : string) : list string :=
  match sep with
  | EmptyString => (fun c => String c EmptyString) <$> list_ascii_of_string s
  | String _ _ => genSplit O EmptyString s sep
  end.

(** [strings.HasSuffix(s, suffix)]. *)
Definition HasSuffix (s suffix : string) : bool :=
  (String.length suffix <=? String.length s)%nat
  && String.eqb
       (String.substring (String.length s - String.length suffix)
          (String.length suffix) s)
       suffix.

(** [strings.TrimLeft] and [strings.TrimRight] for a cutset of one-byte
    characters. *)
Fixpoint TrimLeft (s : string) (cutset : list ascii) : string :=
  match s with
  | EmptyString => EmptyString
  | String c s' => if bool_decide (c ∈ cutset) then TrimLeft s' cutset else s
  end.

Fixpoint TrimRight (s : string) (cutset : list ascii) : string :=
  match s with
  | EmptyString => EmptyString
  | String c s' =>
      match TrimRight s' cutset with
      | EmptyString =>
          if bool_decide (c ∈ cutset) then EmptyString else String c EmptyString
      | t => String c t
      end
  end.

(** [strings.Trim(s, cutset)], the cutset given by its bytes. *)
Definition Trim (s : string) (cutset : list ascii) : string :=
  TrimRight (TrimLeft s cutset) cutset.

End Strings.

(** ** Rule patterns *)

(** [matchPattern] (main.go, lines 313-319).  [parts[0]] cannot fail:
    [Split] on a non-empty separator never returns an empty slice (lemma
    [Split_star_cons]), so the default of [nth] is never used. *)
Definition matchPattern (path pattern : string) : bool :=
  if Strings.Contains pattern "*"
  then
    let parts := Strings.Split pattern "*" in
    Strings.HasPrefix path (nth 0 parts EmptyString)
  else String.eqb path pattern.

(** A string without the byte ['*']. *)
Fixpoint star_free (s : string) : Prop :=
  match s with
  | EmptyString => True
  | String c s' => c ≠ "*"%char ∧ star_free s'
  end.

(** ** Paths *)

Module Filepath.

(** [strings.ReplaceAll] for a one-byte needle. *)
Fixpoint replaceByte (old new : ascii) (s : string) : string :=
  match s with
  | EmptyString => EmptyString
  | String c s' =>
      String (if decide (c = old) then new else c) (replaceByte old new s')
  end.

(** [filepath.ToSlash]: the identity where the separator of the host is
    ['/'], otherwise every separator becomes ['/']. *)
Definition ToSlash (Separator : ascii) (path : string) : string :=
  if decide (Separator = "/"%char) then path
  else replaceByte Separator "/"%char path.

End Filepath.

(** ** Glob patterns of layers

    The program matches layer patterns with [doublestar.Match], a
    third-party library.  The classifier below takes the matcher as a
    parameter; [Doublestar.Match] is the instance used to run it on
    concrete inputs. *)

Module Doublestar.

(** Modelled from the spec: the match of one path segment, which belongs
    to the third-party library [doublestar] and not to the repository.
    ['*'] stands for any run of bytes of the segment, ['?'] for one byte,
    any other byte for itself. *)
Fixpoint matchComponent (p : string) (s : string) : bool :=
  match p with
  | EmptyString => bool_decide (s = EmptyString)
  | String c p' =>
      if decide (c = "*"%char) then
        (fix star (s : string) : bool :=
           matchComponent p' s
           || match s with
              | EmptyString => false
              | String _ s' => star s'
              end) s
      else
        match s with
        | EmptyString => false
        | String d s' =>
            (bool_decide (c = "?"%char) || bool_decide (c = d))
            && matchComponent p' s'
        end
  end.

(** Modelled from the spec: the match of the segments of a path, again
    part of [doublestar].  A segment ["**"] of the pattern stands for zero
    or more whole segments of the path. *)
Fixpoint matchComponents (ps ns : list string) : bool :=
  match ps with
  | [] => bool_decide (ns = [])
  | p :: ps' =>
      if decide (p = "**") then
        (fix skip (ns : list string) : bool :=
           matchComponents ps' ns
           || match ns with
              | [] => false
              | _ :: ns' => skip ns'
              end) ns
      else
        match ns with
        | [] => false
        | n :: ns' => matchComponent p n && matchComponents ps' ns'
        end
  end.

(** Modelled from the spec: [doublestar.Match(pattern, name)] of
    github.com/bmatcuk/doublestar/v4, which the repository imports and
    does not contain.  The spec describes it as full glob syntax over
    slash-separated paths, anchored and case-sensitive, where ['*'] is
    any run of characters inside a segment and ["**"] any run across
    segment boundaries, including zero segments.  Character classes,
    alternatives and escapes are left out; the result is the match
    flag, the error the program discards being dropped. *)
Definition Match (pattern name : string) : bool :=
  matchComponents (Strings.Split pattern "/") (Strings.Split name "/").

End Doublestar.

(** ** Data model (main.go, lines 18-47) *)

Definition layerRoot : string := "root".
Definition layerUnknown : string := "unknown".

Record LayerConfig := { Paths : list string }.

Record DependencyRule := { From : string; To : string; Allow : bool }.

Record Config := {
  Layers : gmap string LayerConfig;
  DependencyRules : list DependencyRule;
  ExcludeDirs : list string
}.

(** [Module] is reserved in Rocq, hence [Module_].  The two dependency
    tables are Go [map[string]bool] values. *)
Record PackageInfo := {
  Path : string;
  Module_ : string;
  Layer : string;
  Imports : list string;
  LayerDeps : gmap string bool;
  ExternalDeps : gmap string bool
}.

(** ** Standard output

    Every [fmt.Printf] of the program, with its arguments; [render] gives
    the bytes written. *)
Inductive Line :=
| DebugInLayer (pkg layer : string)
| WarnUnknownLayer (pkg : string)
| WarnImportsUnknown (pkg imported : string)
| LayerViolation (pkg layer dep : string)
| DebugLayerDeps (pkg layer dep : string)
| ExternalViolation (pkg layer ext : string).

Definition newline : string := String (ascii_of_nat 10) EmptyString.

Definition render (l : Line) : string :=
  match l with
  | DebugInLayer pkg layer =>
      "[debug] pkg `" +:+ pkg +:+ "` is in layer `" +:+ layer +:+ "`" +:+ newline
  | WarnUnknownLayer pkg =>
      "[warn] pkg `" +:+ pkg +:+ "` is in layer `UNKNOWN`" +:+ newline
  | WarnImportsUnknown pkg imported =>
      "[warn] pkg `" +:+ pkg +:+ "` imports UNKNOWN `" +:+ imported +:+ "`" +:+ newline
  | LayerViolation pkg layer dep =>
      "LAYER VIOLATION: " +:+ pkg +:+ " (" +:+ layer +:+ ") -> " +:+ dep +:+ newline
  | DebugLayerDeps pkg layer dep =>
      "[debug] layer deps: " +:+ pkg +:+ " (" +:+ layer +:+ ") -> " +:+ dep +:+ newline
  | ExternalViolation pkg layer ext =>
      "EXTERNAL VIOLATION: " +:+ pkg +:+ " (" +:+ layer +:+ ") -> " +:+ ext +:+ newline
  end.

(** ** State

    [packages] is the table [map[string]*PackageInfo]: every key owns its
    own [PackageInfo] (allocated once in [parseProject]), so a write
    through the pointer is an update of the table at that key. *)
Record World := {
  packages : gmap string PackageInfo;
  stdout : list Line
}.

Definition M (A : Type) : Type := World → A * World.

#[export] Instance M_ret : MRet M := λ A (a : A) w, (a, w).

#[export] Instance M_bind : MBind M :=
  λ A B (f : A → M B) (m : M A) w, let (a, w') := m w in f a w'.

Definition Printf (l : Line) : M unit :=
  λ w, (tt, {| packages := packages w; stdout := stdout w ++ [l] |}).

Definition getPackages : M (gmap string PackageInfo) :=
  λ w, (packages w, w).

(** A write through the pointer stored at key [k]. *)
Definition update (k : string) (f : PackageInfo → PackageInfo) : M unit :=
  λ w, (tt, {| packages := alter f k (packages w); stdout := stdout w |}).

(** [for _, x := range xs { body }] over a slice. *)
Fixpoint forEach {A} (xs : list A) (body : A → M unit) : M unit :=
  match xs with
  | [] => mret tt
  | x :: xs' => body x ;; forEach xs' body
  end.

(** [for k, v := range m { body }] over a map.  Go visits every key once,
    in an order of its own choosing: [order] is that order.  A key that is
    not in the map is never visited. *)
Definition rangeMap {V} (m : gmap string V) (order : list string)
    (body : string → V → M unit) : M unit :=
  forEach order (λ k,
    match m !! k with
    | Some v => body k v
    | None => mret tt
    end).

(** [for _, pkg := range packages { body }]: the values are pointers, so
    the body sees the record as it is when the key is reached. *)
Definition rangePackages (order : list string)
    (body : string → PackageInfo → M unit) : M unit :=
  forEach order (λ k,
    pkgs ← getPackages;
    match pkgs !! k with
    | Some pkg => body k pkg
    | None => mret tt
    end).

(** The orders Go may choose for a [range] over [m]. *)
Definition visits {V} (m : gmap string V) (order : list string) : Prop :=
  NoDup order ∧ list_to_set order = dom m.

(** ** Import graph (main.go, lines 151-184) *)

(** First loop of [analyzePackages], [for _, pkg := range packages {
    modulePrefixes[pkg.Module] = true }], under a visiting order. *)
Definition modulePrefixesLoop (pkgs : gmap string PackageInfo) (order : list string)
    : gmap string bool :=
  foldl (λ modulePrefixes k,
           match pkgs !! k with
           | Some pkg => <[Module_ pkg := true]> modulePrefixes
           | None => modulePrefixes
           end) ∅ order.

(** The table that loop builds; it is the same under every visiting order
    ([modulePrefixesLoop_any_order]). *)
Definition modulePrefixesOf (pkgs : gmap string PackageInfo) : gmap string bool :=
  map_fold (λ _ pkg modulePrefixes, <[Module_ pkg := true]> modulePrefixes) ∅ pkgs.

(** [isExternal := true; for module := range modulePrefixes { if
    strings.HasPrefix(imp, module) { isExternal = false; break } }].  The
    flag does not depend on the visiting order ([isExternal_any_order]),
    so the loop is run in the order of [map_to_list]. *)
Fixpoint isExternal (imp : string) (modules : list string) : bool :=
  match modules with
  | [] => true
  | module :: rest =>
      if Strings.HasPrefix imp module then false else isExternal imp rest
  end.

Definition addExternalDep (imp : string) (p : PackageInfo) : PackageInfo :=
  {| Path := Path p; Module_ := Module_ p; Layer := Layer p;
     Imports := Imports p; LayerDeps := LayerDeps p;
     ExternalDeps := <[imp := true]> (ExternalDeps p) |}.

Definition addLayerDep (layer : string) (p : PackageInfo) : PackageInfo :=
  {| Path := Path p; Module_ := Module_ p; Layer := Layer p;
     Imports := Imports p; LayerDeps := <[layer := true]> (LayerDeps p);
     ExternalDeps := ExternalDeps p |}.

(** Body of the loop over [pkg.Imports]; [k] is the key under which [pkg]
    is stored. *)
Definition analyzeImport (modulePrefixes : gmap string bool)
    (k : string) (pkg : PackageInfo) (imp : string) : M unit :=
  if isExternal imp (map_to_list modulePrefixes).*1 then
    update k (addExternalDep imp)
  else
    pkgs ← getPackages;
    match pkgs !! imp with
    | Some impPkg =>
        update k (addLayerDep (Layer impPkg));;
        if String.eqb (Layer impPkg) layerUnknown
        then Printf (WarnImportsUnknown (Path pkg) (Path impPkg))
        else mret tt
    | None => mret tt
    end.

Definition analyzePackages (order : list string) (config : Config) : M unit :=
  pkgs ← getPackages;
  let modulePrefixes := modulePrefixesOf pkgs in
  rangePackages order (λ k pkg,
    forEach (Imports pkg) (analyzeImport modulePrefixes k pkg)).

(** ** Rule evaluation (main.go, lines 186-217) *)

(** The loop over [config.DependencyRules], which both the layer check and
    the external check run; [violation] is the line the check prints. *)
Fixpoint rangeRules (rules : list DependencyRule) (layer dep : string)
    (violation : Line) : M unit :=
  match rules with
  | [] => mret tt
  | rule :: rest =>
      if matchPattern layer (From rule) && matchPattern dep (To rule)
      then (if negb (Allow rule) then Printf violation else mret tt)
      else rangeRules rest layer dep violation
  end.

Definition checkDependencies (order : list string)
    (orderLayerDeps orderExternalDeps : string → list string)
    (config : Config) : M unit :=
  rangePackages order (λ k pkg,
    rangeMap (LayerDeps pkg) (orderLayerDeps k) (λ layer _,
      rangeRules (DependencyRules config) (Layer pkg) layer
        (LayerViolation (Path pkg) (Layer pkg) layer);;
      Printf (DebugLayerDeps (Path pkg) (Layer pkg) layer));;
    rangeMap (ExternalDeps pkg) (orderExternalDeps k) (λ extPkg _,
      rangeRules (DependencyRules config) (Layer pkg) extPkg
        (ExternalViolation (Path pkg) (Layer pkg) extPkg))).

(** ** Command line and project walk *)

Inductive Flag := flag_project_root | flag_config.

(** How the process ends: [log.Fatal] writes its message to the standard
    error and exits with status 1; a return from [main] exits with 0. *)
Inductive Exit := Fatal (msg : string) | Returned.

Definition exitStatus (e : Exit) : nat :=
  match e with Fatal _ => 1 | Returned => 0 end.

(** [flag.Parse] on a command line it accepts: each [-name=value]
    overwrites the variable of its flag, the last one standing, and [args]
    are these settings in their order.  A command line that [flag.Parse]
    refuses (an undefined flag, a flag without its value, [-h]) ends the
    process inside [flag.Parse], before line 54 is reached, and is no
    [args]; what [main] does is stated on the values [flagParse] leaves. *)
Fixpoint flagParse (args : list (Flag * string)) (projectRoot configPath : string)
    : string * string :=
  match args with
  | [] => (projectRoot, configPath)
  | (flag_project_root, v) :: rest => flagParse rest v configPath
  | (flag_config, v) :: rest => flagParse rest projectRoot v
  end.

(** What the walk hands over for one [.go] file that was not pruned: the
    module prefix of the nearest [go.mod], the directory of the file
    relative to that module, and the import paths of the file (quotes
    trimmed).  A file whose module or syntax cannot be read ends the walk
    with an error. *)
Record GoFile := {
  modPrefix : string;
  relDir : string;
  fileImports : list string
}.

Inductive WalkItem := SourceFile (f : GoFile) | WalkError (err : string).

(** The visiting orders Go chooses for the [range] loops over maps. *)
Record Schedule := {
  order_Layers : string → list string;
  order_analyze : list string;
  order_check : list string;
  order_LayerDeps : string → list string;
  order_ExternalDeps : string → list string
}.

Definition usage : string := "Both project-root and config must be specified".

Section Program.

(** [filepath.Separator] of the host. *)
Variable Separator : ascii.
(** [doublestar.Match], error dropped. *)
Variable doublestar_Match : string → string → bool.

(** Inner loop of [getLayerForPackage] over [layerConfig.Paths]. *)
Definition layerMatches (layerConfig : LayerConfig) (pkgSlashPath : string) : bool :=
  existsb (λ path, doublestar_Match path pkgSlashPath) (Paths layerConfig).

(** Outer loop of [getLayerForPackage]; [Some layer] is the [return
    layer] inside the loop. *)
Fixpoint rangeLayers (layers : gmap string LayerConfig) (order : list string)
    (pkgSlashPath : string) : M (option string) :=
  match order with
  | [] => mret None
  | layer :: rest =>
      match layers !! layer with
      | Some layerConfig =>
          if layerMatches layerConfig pkgSlashPath
          then Printf (DebugInLayer pkgSlashPath layer);; mret (Some layer)
          else rangeLayers layers rest pkgSlashPath
      | None => rangeLayers layers rest pkgSlashPath
      end
  end.

(** [getLayerForPackage] (main.go, lines 293-310). *)
Definition getLayerForPackage (order : list string) (pkgPath relPath : string)
    (config : Config) : M string :=
  let pkgSlashPath := Filepath.ToSlash Separator pkgPath in
  found ← rangeLayers (Layers config) order pkgSlashPath;
  match found with
  | Some layer => mret layer
  | None =>
      if String.eqb relPath "." then mret layerRoot
      else Printf (WarnUnknownLayer pkgSlashPath);; mret layerUnknown
  end.

Definition newPackage (pkgPath : string) (pkg : PackageInfo) : M unit :=
  λ w, (tt, {| packages := <[pkgPath := pkg]> (packages w); stdout := stdout w |}).

Definition appendImport (imp : string) (p : PackageInfo) : PackageInfo :=
  {| Path := Path p; Module_ := Module_ p; Layer := Layer p;
     Imports := Imports p ++ [imp]; LayerDeps := LayerDeps p;
     ExternalDeps := ExternalDeps p |}.

(** [parseProject], the part of the walk callback after module lookup
    and parsing (main.go, lines 124-143). *)
Definition visitGoFile (sched : Schedule) (config : Config) (f : GoFile) : M unit :=
  let relPath := Filepath.ToSlash Separator (relDir f) in
  let pkgPath := modPrefix f +:+ "/" +:+ relPath in
  pkgs ← getPackages;
  match pkgs !! pkgPath with
  | Some _ => mret tt
  | None =>
      layer ← getLayerForPackage (order_Layers sched pkgPath) pkgPath relPath config;
      newPackage pkgPath
        {| Path := pkgPath; Module_ := modPrefix f; Layer := layer;
           Imports := []; LayerDeps := ∅; ExternalDeps := ∅ |}
  end;;
  forEach (fileImports f) (λ impPath, update pkgPath (appendImport impPath)).

(** [parseProject] over the files the walk reaches; the result is the
    error of the walk, if any. *)
Fixpoint parseProject (sched : Schedule) (config : Config) (walk : list WalkItem)
    : M (option string) :=
  match walk with
  | [] => mret None
  | WalkError err :: _ => mret (Some err)
  | SourceFile f :: rest =>
      visitGoFile sched config f;; parseProject sched config rest
  end.

(** [os.ReadFile] and [yaml.Unmarshal] into a [Config]. *)
Variable ReadFile : string → string + string.
Variable yaml_Unmarshal : string → Config + string.
(** The files [filepath.Walk] reaches under a root, directories matched
    by [config.ExcludeDirs] pruned. *)
Variable Walk : string → Config → list WalkItem.

(** [loadConfig] (main.go, lines 72-85). *)
Definition loadConfig (configFile : string) : Config + string :=
  match ReadFile configFile with
  | inr err => inr ("failed to read config file: " +:+ err)
  | inl data =>
      match yaml_Unmarshal data with
      | inr err => inr ("failed to parse config file: " +:+ err)
      | inl config => inl config
      end
  end.

(** [main] (main.go, lines 49-70). *)
Definition main (sched : Schedule) (args : list (Flag * string)) : M Exit :=
  let '(projectRoot, configPath) := flagParse args EmptyString "config.yaml" in
  if String.eqb projectRoot EmptyString || String.eqb configPath EmptyString then
    mret (Fatal usage)
  else
    match loadConfig configPath with
    | inr err => mret (Fatal ("Failed to load config: " +:+ err))
    | inl config =>
        err ← parseProject sched config (Walk projectRoot config);
        match err with
        | Some err => mret (Fatal ("Failed to parse project: " +:+ err))
        | None =>
            analyzePackages (order_analyze sched) config;;
            checkDependencies (order_check sched) (order_LayerDeps sched)
              (order_ExternalDeps sched) config;;
            mret Returned
        end
    end.

End Program.

(** The state in which the process starts. *)
Definition start : World := {| packages := ∅; stdout := [] |}.

(** ** The walk of the project tree (main.go, lines 87-149)

    [parseProject] hands its walk function to [filepath.Walk] of Go's
    standard library, which calls it on the root and then, in lexical
    order, on everything below it.  [walkFn] is the function of the
    repository; [walkEntries], [walk] and the last step of
    [parseProjectTree] follow the library's [walk] and [Walk].  A [Node]
    is what [os.Lstat] and the reading of a directory show of one name: a
    file, a directory with its entries in lexical order (or the error of
    reading it), or a name that cannot be examined. *)
Inductive Node :=
| NFile (name : string)
| NDir (name : string) (readErr : option string) (entries : list Node)
| NBroken (name : string) (err : string).

Definition nodeName (n : Node) : string :=
  match n with
  | NFile name | NDir name _ _ | NBroken name _ => name
  end.

Definition nodeIsDir (n : Node) : bool :=
  match n with NDir _ _ _ => true | _ => false end.

(** What the walk function returns: [nil], [filepath.SkipDir] or an error. *)
Inductive WalkResult := WalkNil | SkipDir | WalkErr (err : string).

(** The double quote, the cutset of [strings.Trim] on [imp.Path.Value]. *)
Definition quote : ascii := ascii_of_nat 34.

Section Walking.

Variable Separator : ascii.
Variable doublestar_Match : string → string → bool.
(** [filepath.Join], [filepath.Rel] with its error dropped as the program
    drops it, and [filepath.Dir]. *)
Variable Join : string → string → string.
Variable Rel : string → string → string.
Variable Dir : string → string.
(** [findNearestModule]: the directory and the module path of the nearest
    [go.mod], or the error. *)
Variable findModule : string → (string * string) + string.
(** [parser.ParseFile(fset, path, nil, parser.ImportsOnly)]: the literal
    [Path.Value] of every import of the file, or the error. *)
Variable ParseFile : string → list string + string.

(** The loop over [config.ExcludeDirs] of the walk function. *)
Definition excluded (config : Config) (relPath : string) : bool :=
  existsb (λ pattern, doublestar_Match pattern relPath) (ExcludeDirs config).

(** The function [parseProject] hands to [filepath.Walk] (lines 91-146).
    [info] is [inr err] when the walk reports an error for the path, and
    otherwise the name and the directory flag of its [os.FileInfo]. *)
Definition walkFn (sched : Schedule) (root : string) (config : Config)
    (path : string) (info : string * bool + string) : M WalkResult :=
  match info with
  | inr err => mret (WalkErr err)
  | inl (name, isDir) =>
      if isDir then
        let relPath := Rel root path in
        if excluded config relPath then mret SkipDir else mret WalkNil
      else if negb (Strings.HasSuffix name ".go") then mret WalkNil
      else
        match findModule path with
        | inr err =>
            mret (WalkErr ("failed to find module for " +:+ path +:+ ": " +:+ err))
        | inl (modDir, modPrefix_) =>
            match ParseFile path with
            | inr err =>
                mret (WalkErr ("failed to parse file " +:+ path +:+ ": " +:+ err))
            | inl imports =>
                visitGoFile Separator doublestar_Match sched config
                  {| modPrefix := modPrefix_;
                     relDir := Rel modDir (Dir path);
                     fileImports := (λ value, Strings.Trim value [quote]) <$> imports |};;
                mret WalkNil
            end
        end
  end.

(** The loop of [walk] over the entries of a directory; [walkNode] is
    [walk] itself.  An entry that cannot be examined goes to the walk
    function with its error.  An error ends the walk; [SkipDir] from a
    directory skips that directory only, from a file it skips the rest of
    the file's directory. *)
Fixpoint walkEntries (walkNode : string → Node → M WalkResult)
    (sched : Schedule) (root : string) (config : Config)
    (path : string) (es : list Node) : M WalkResult :=
  match es with
  | [] => mret WalkNil
  | e :: rest =>
      let filename := Join path (nodeName e) in
      match e with
      | NBroken _ err =>
          r ← walkFn sched root config filename (inr err);
          match r with
          | WalkErr _ => mret r
          | _ => walkEntries walkNode sched root config path rest
          end
      | _ =>
          r ← walkNode filename e;
          match r with
          | WalkNil => walkEntries walkNode sched root config path rest
          | SkipDir =>
              if nodeIsDir e then walkEntries walkNode sched root config path rest
              else mret SkipDir
          | WalkErr _ => mret r
          end
      end
  end.

(** [walk] of package [filepath]: the walk function on the path, then, for
    a directory that was read and not skipped, the entries in order. *)
Fixpoint walk (sched : Schedule) (root : string) (config : Config)
    (path : string) (n : Node) : M WalkResult :=
  match n with
  | NFile name => walkFn sched root config path (inl (name, false))
  | NBroken name err => walkFn sched root config path (inr err)
  | NDir name readErr entries =>
      err1 ← walkFn sched root config path
                (match readErr with
                 | Some err => inr err
                 | None => inl (name, true)
                 end);
      match readErr, err1 with
      | None, WalkNil =>
          walkEntries (walk sched root config) sched root config path entries
      | _, _ => mret err1
      end
  end.

(** [filepath.Walk(root, fn)] as [parseProject] calls it, and the error
    [parseProject] returns: [SkipDir] from the root is no error. *)
Definition parseProjectTree (sched : Schedule) (root : string) (config : Config)
    (tree : Node) : M (option string) :=
  r ← walk sched root config root tree;
  mret (match r with
        | WalkErr err => Some err
        | _ => None
        end).

(** What the walk function makes of one [.go] file. *)
Definition fileItem (path : string) : WalkItem :=
  match findModule path with
  | inr err => WalkError ("failed to find module for " +:+ path +:+ ": " +:+ err)
  | inl (modDir, modPrefix_) =>
      match ParseFile path with
      | inr err => WalkError ("failed to parse file " +:+ path +:+ ": " +:+ err)
      | inl imports =>
          SourceFile
            {| modPrefix := modPrefix_;
               relDir := Rel modDir (Dir path);
               fileImports := (λ value, Strings.Trim value [quote]) <$> imports |}
      end
  end.

(** The [.go] files and the errors a walk reaches below [path], in walk
    order, the content of excluded directories left out. *)
Fixpoint reached (root : string) (config : Config) (path : string) (n : Node)
    : list WalkItem :=
  match n with
  | NFile name => if Strings.HasSuffix name ".go" then [fileItem path] else []
  | NBroken _ err => [WalkError err]
  | NDir _ (Some err) _ => [WalkError err]
  | NDir _ None entries =>
      if excluded config (Rel root path) then []
      else flat_map (λ e, reached root config (Join path (nodeName e)) e) entries
  end.

End Walking.

(** ** Module lookup (main.go, lines 265-291) *)

(** How [findNearestModule] ends: with the directory and the module path
    of a [go.mod], with an error, or in the panic of reading
    [modFile.Module.Mod.Path] when the file declares no module. *)
Inductive FindResult :=
| FoundModule (modDir modPath : string)
| FindError (err : string)
| FindPanic.

Section ModuleLookup.

(** [filepath.Join] and [filepath.Dir]. *)
Variable Join : string → string → string.
Variable Dir : string → string.
(** [os.Stat] succeeds on the path. *)
Variable Stat : string → bool.
(** [os.ReadFile], and [modfile.Parse] giving the path of the module
    directive, [None] when the file has none, or the error. *)
Variable ReadFile : string → string + string.
Variable modfile_Parse : string → string → option string + string.

(** The loop of [findNearestModule] from the directory [dir].  The loop
    ends when a [go.mod] is found or [filepath.Dir] no longer moves; [fuel]
    bounds the number of directories tried, [None] meaning it ran out. *)
Fixpoint findNearestModuleFrom (fuel : nat) (filePath dir : string)
    : option FindResult :=
  match fuel with
  | O => None
  | S fuel' =>
      let modPath := Join dir "go.mod" in
      if Stat modPath then
        match ReadFile modPath with
        | inr err => Some (FindError ("failed to read go.mod: " +:+ err))
        | inl modData =>
            match modfile_Parse modPath modData with
            | inr err => Some (FindError ("failed to parse go.mod: " +:+ err))
            | inl (Some modulePath) => Some (FoundModule dir modulePath)
            | inl None => Some FindPanic
            end
        end
      else
        let parentDir := Dir dir in
        if String.eqb parentDir dir
        then Some (FindError ("go.mod not found for " +:+ filePath))
        else findNearestModuleFrom fuel' filePath parentDir
  end.

Definition findNearestModule (fuel : nat) (filePath : string) : option FindResult :=
  findNearestModuleFrom fuel filePath (Dir filePath).

(** What [findNearestModule] returns once [os.Stat] has found
    [dir/go.mod]. *)
Definition moduleAt (dir : string) : FindResult :=
  match ReadFile (Join dir "go.mod") with
  | inr err => FindError ("failed to read go.mod: " +:+ err)
  | inl modData =>
      match modfile_Parse (Join dir "go.mod") modData with
      | inr err => FindError ("failed to parse go.mod: " +:+ err)
      | inl (Some modulePath) => FoundModule dir modulePath
      | inl None => FindPanic
      end
  end.

End ModuleLookup.

(** ** Vocabulary of the statements *)

(** The state after the lines [ls] were printed. *)
Definition emit (ls : list Line) (w : World) : World :=
  {| packages := packages w; stdout := stdout w ++ ls |}.

(** A rule applies to the edge from a unit of layer [layer] to [dep]: the
    condition of the [if] in the rule loops. *)
Definition applies (rule : DependencyRule) (layer dep : string) : bool :=
  matchPattern layer (From rule) && matchPattern dep (To rule).

(** The rule that governs an edge: [rule], found after the rules [pre],
    none of which applies. *)
Definition governs (rules : list DependencyRule) (layer dep : string)
    (rule : DependencyRule) : Prop :=
  ∃ pre post, rules = pre ++ rule :: post
    ∧ Forall (λ r, applies r layer dep = false) pre
    ∧ applies rule layer dep = true.

(** The rules of the spec's example. *)
Definition domainRules : list DependencyRule :=
  [ {| From := "domain"; To := "domain"; Allow := true |};
    {| From := "domain"; To := "*"; Allow := false |} ].

(** A unit path falls in a layer: one of the layer's patterns matches it. *)
Definition inLayer (Match : string → string → bool) (layerConfig : LayerConfig)
    (p : string) : Prop :=
  ∃ path, path ∈ Paths layerConfig ∧ Match path p = true.

(** No layer in [order] contains the path [p]. *)
Definition unmatched (Match : string → string → bool)
    (layers : gmap string LayerConfig) (order : list string) (p : string) : Prop :=
  Forall (λ layer, ∀ layerConfig,
            layers !! layer = Some layerConfig → ¬ inLayer Match layerConfig p)
         order.

(** The first applicable rule denies the edge ([rangeRules_run]). *)
Definition denied (rules : list DependencyRule) (layer dep : string) : bool :=
  match find (λ rule, applies rule layer dep) rules with
  | Some rule => negb (Allow rule)
  | None => false
  end.

(** The lines [checkDependencies] prints while it visits the key [k]
    ([checkDependencies_run]). *)
Definition checkLines (orderLayerDeps orderExternalDeps : string → list string)
    (config : Config) (pkgs : gmap string PackageInfo) (k : string) : list Line :=
  match pkgs !! k with
  | Some pkg =>
      flat_map (λ layer,
          match LayerDeps pkg !! layer with
          | Some _ =>
              (if denied (DependencyRules config) (Layer pkg) layer
               then [LayerViolation (Path pkg) (Layer pkg) layer] else [])
              ++ [DebugLayerDeps (Path pkg) (Layer pkg) layer]
          | None => []
          end) (orderLayerDeps k)
      ++ flat_map (λ extPkg,
          match ExternalDeps pkg !! extPkg with
          | Some _ =>
              if denied (DependencyRules config) (Layer pkg) extPkg
              then [ExternalViolation (Path pkg) (Layer pkg) extPkg] else []
          | None => []
          end) (orderExternalDeps k)
  | None => []
  end.

(** An import starts with the module prefix of some unit of the table. *)
Definition knownPrefix (pkgs : gmap string PackageInfo) (imp : string) : Prop :=
  ∃ k pkg, pkgs !! k = Some pkg ∧ Strings.HasPrefix imp (Module_ pkg) = true.

(** What one import does to the unit that holds it, and what it prints,
    in a table [pkgs]; [path] is the [Path] of the importing unit
    ([analyzeImport_run]). *)
Definition stepPkg (modulePrefixes : gmap string bool)
    (pkgs : gmap string PackageInfo) (p : PackageInfo) (imp : string) : PackageInfo :=
  if isExternal imp (map_to_list modulePrefixes).*1 then addExternalDep imp p
  else match pkgs !! imp with
       | Some impPkg => addLayerDep (Layer impPkg) p
       | None => p
       end.

Definition importLines (modulePrefixes : gmap string bool)
    (pkgs : gmap string PackageInfo) (path imp : string) : list Line :=
  if isExternal imp (map_to_list modulePrefixes).*1 then []
  else match pkgs !! imp with
       | Some impPkg =>
           if String.eqb (Layer impPkg) layerUnknown
           then [WarnImportsUnknown path (Path impPkg)] else []
       | None => []
       end.

(** The whole import list of a unit, and the lines of the key [k]
    ([analyzePackages_run]). *)
Definition analyzeUnit (modulePrefixes : gmap string bool)
    (pkgs : gmap string PackageInfo) (p : PackageInfo) : PackageInfo :=
  foldl (stepPkg modulePrefixes pkgs) p (Imports p).

Definition unitLines (modulePrefixes : gmap string bool)
    (pkgs : gmap string PackageInfo) (k : string) : list Line :=
  match pkgs !! k with
  | Some pkg => flat_map (importLines modulePrefixes pkgs (Path pkg)) (Imports pkg)
  | None => []
  end.

(** The loop over the module prefixes leaves [isExternal] set. *)
Definition external (modulePrefixes : gmap string bool) (imp : string) : Prop :=
  isExternal imp (map_to_list modulePrefixes).*1 = true.

(** The fields graph building never writes. *)
Definition static (p : PackageInfo) : string * string * string * list string :=
  (Path p, Module_ p, Layer p, Imports p).

Definition sameUnits (a b : gmap string PackageInfo) : Prop :=
  ∀ k, static <$> a !! k = static <$> b !! k.

(** ** Concrete inputs *)

(** Two layers of the shipped [config.yaml], with the rules of the spec's
    example. *)
Definition twoLayers : Config :=
  {| Layers := <["domain" := {| Paths := ["**/domain/**"; "**/domain/**/service/**"] |}]>
                 (<["application" := {| Paths := ["**/app/**"; "**/service/**"] |}]> ∅);
     DependencyRules := domainRules;
     ExcludeDirs := ["**/vendor"] |}.

(** A layer declared by a pattern relative to the module root. *)
Definition relativeLayer : Config :=
  {| Layers := <["domain" := {| Paths := ["domain/**"] |}]> ∅;
     DependencyRules := [];
     ExcludeDirs := [] |}.

Definition orderFile : GoFile :=
  {| modPrefix := "m"; relDir := "domain/order"; fileImports := ["fmt"] |}.

Definition anySchedule (order : list string) : Schedule :=
  {| order_Layers := λ _, order; order_analyze := []; order_check := [];
     order_LayerDeps := λ _, []; order_ExternalDeps := λ _, [] |}.

(** A unit of layer [domain] after graph building, and a table holding it. *)
Definition domainUnit : PackageInfo :=
  {| Path := "m/domain/a"; Module_ := "m"; Layer := "domain";
     Imports := ["fmt"; "m/app/b"; "m/domain/c"; "m/gone"];
     LayerDeps := <["application" := true]> (<["domain" := true]> ∅);
     ExternalDeps := <["fmt" := true]> ∅ |}.

Definition checkedWorld : World :=
  {| packages := <["m/domain/a" := domainUnit]> ∅; stdout := [] |}.

(** The table [parseProject] leaves for a module [m] with three units. *)
Definition freshUnit (path layer : string) (imports : list string) : PackageInfo :=
  {| Path := path; Module_ := "m"; Layer := layer; Imports := imports;
     LayerDeps := ∅; ExternalDeps := ∅ |}.

Definition importingUnit : PackageInfo :=
  freshUnit "m/domain/a" "domain" ["fmt"; "m/app/b"; "m/domain/c"; "m/gone"].

Definition parsedWorld : World :=
  {| packages :=
       <["m/domain/a" := importingUnit]>
         (<["m/app/b" := freshUnit "m/app/b" "application" ["fmt"]]>
            (<["m/domain/c" := freshUnit "m/domain/c" "domain" []]> ∅));
     stdout := [] |}.

(** A host on which only [config.yaml] can be read, holding [twoLayers],
    and whose project has the single file [orderFile]. *)
Definition onlyDefaultConfig (file : string) : string + string :=
  if String.eqb file "config.yaml" then inl "layers: ..."
  else inr "no such file".

Definition parseTwoLayers (data : string) : Config + string := inl twoLayers.

Definition oneFile (root : string) (config : Config) : list WalkItem :=
  [SourceFile orderFile].

Definition oneFileSchedule : Schedule :=
  {| order_Layers := λ _, ["domain"; "application"];
     order_analyze := ["m/domain/order"];
     order_check := ["m/domain/order"];
     order_LayerDeps := λ _, [];
     order_ExternalDeps := λ _, ["fmt"] |}.

(** The end-to-end scenario of the spec: module [m], the units [m/domain]
    and [m/infra], one rule denying every edge out of [domain]. *)
Definition scenarioConfig : Config :=
  {| Layers := <["domain" := {| Paths := ["**/domain/**"] |}]>
                 (<["infrastructure" := {| Paths := ["**/infra/**"] |}]> ∅);
     DependencyRules := [ {| From := "domain"; To := "*"; Allow := false |} ];
     ExcludeDirs := [] |}.

Definition scenarioWalk (root : string) (config : Config) : list WalkItem :=
  [ SourceFile {| modPrefix := "m"; relDir := "domain"; fileImports := ["m/infra"] |};
    SourceFile {| modPrefix := "m"; relDir := "infra"; fileImports := [] |} ].

Definition scenarioSchedule : Schedule :=
  {| order_Layers := λ _, ["infrastructure"; "domain"];
     order_analyze := ["m/infra"; "m/domain"];
     order_check := ["m/domain"; "m/infra"];
     order_LayerDeps := λ _, ["infrastructure"];
     order_ExternalDeps := λ _, [] |}.

(** ** Vocabulary of the further properties *)

(** A schedule of [checkDependencies] that visits the dependency tables of
    every unit of [w] as Go may. *)
Definition validCheck (w : World)
    (orderLayerDeps orderExternalDeps : string → list string) : Prop :=
  ∀ k pkg, packages w !! k = Some pkg →
    visits (LayerDeps pkg) (orderLayerDeps k)
    ∧ visits (ExternalDeps pkg) (orderExternalDeps k).

(** The [dependency_rules] of the shipped [config.yaml] (lines 34-59). *)
Definition shippedRules : list DependencyRule :=
  [ {| From := "unknown"; To := "unknown"; Allow := true |};
    {| From := "domain"; To := "domain"; Allow := true |};
    {| From := "domain"; To := "*"; Allow := false |};
    {| From := "application"; To := "infrastructure"; Allow := false |};
    {| From := "application"; To := "mycompany.org/xx/moduleA"; Allow := true |};
    {| From := "domain"; To := "mycompany.org/xx/moduleB"; Allow := false |};
    {| From := "infrastructure"; To := "cloud.google.com/go/firestore"; Allow := true |};
    {| From := "*"; To := "cloud.google.com/go/firestore"; Allow := false |} ].

(** An import adds the layer [L] to the unit that holds it: it starts with
    a module prefix and is the key of a unit of layer [L]. *)
Definition contributes (modulePrefixes : gmap string bool)
    (pkgs : gmap string PackageInfo) (L imp : string) : bool :=
  negb (isExternal imp (map_to_list modulePrefixes).*1)
  && match pkgs !! imp with
     | Some impPkg => bool_decide (Layer impPkg = L)
     | None => false
     end.

(** Two units that differ at most in the order and the repetitions of
    their import lists. *)
Definition sameImportSet (p q : PackageInfo) : Prop :=
  Path p = Path q ∧ Module_ p = Module_ q ∧ Layer p = Layer q
  ∧ LayerDeps p = LayerDeps q ∧ ExternalDeps p = ExternalDeps q
  ∧ ∀ imp, imp ∈ Imports p ↔ imp ∈ Imports q.

(** A unit with its import list rewritten by [f]. *)
Definition withImports (f : list string → list string) (p : PackageInfo) : PackageInfo :=
  {| Path := Path p; Module_ := Module_ p; Layer := Layer p;
     Imports := f (Imports p); LayerDeps := LayerDeps p;
     ExternalDeps := ExternalDeps p |}.

(** A table in which [m/domain/a] imports a unit that matched no layer. *)
Definition warnWorld : World :=
  {| packages :=
       <["m/domain/a" := freshUnit "m/domain/a" "domain" ["fmt"; "m/misc"]]>
         (<["m/misc" := freshUnit "m/misc" "unknown" []]> ∅);
     stdout := [] |}.

(** The key under which [parseProject] files a source file: the [pkgPath]
    of the walk callback. *)
Definition unitPath (Separator : ascii) (f : GoFile) : string :=
  modPrefix f +:+ "/" +:+ Filepath.ToSlash Separator (relDir f).

(** A unit after the imports [imps] were appended to its list. *)
Definition appendImports (imps : list string) (p : PackageInfo) : PackageInfo :=
  {| Path := Path p; Module_ := Module_ p; Layer := Layer p;
     Imports := Imports p ++ imps; LayerDeps := LayerDeps p;
     ExternalDeps := ExternalDeps p |}.

(** The files of a walk that belong to the unit [k], in walk order. *)
Definition filesOf (Separator : ascii) (k : string) (files : list GoFile) : list GoFile :=
  filter (λ f, unitPath Separator f = k) files.

(** Two files of one module [m]: two of the unit [m/domain/order], one of
    [m/app]. *)
Definition threeFiles : list GoFile :=
  [ {| modPrefix := "m"; relDir := "domain/order"; fileImports := ["fmt"; "m/app"] |};
    {| modPrefix := "m"; relDir := "app"; fileImports := ["os"] |};
    {| modPrefix := "m"; relDir := "domain/order"; fileImports := ["m/app"; "errors"] |} ].

(** The lines the classifier prints. *)
Definition isClassification (line : Line) : Prop :=
  match line with
  | DebugInLayer _ _ | WarnUnknownLayer _ => True
  | _ => False
  end.

(** A schedule for the walk over [threeFiles]. *)
Definition threeFilesSchedule : Schedule :=
  {| order_Layers := λ _, ["domain"; "application"];
     order_analyze := ["m/domain/order"; "m/app"];
     order_check := ["m/app"; "m/domain/order"];
     order_LayerDeps := λ _, ["application"];
     order_ExternalDeps := λ k, if String.eqb k "m/app" then ["os"] else ["errors"; "fmt"] |}.

Definition threeFilesWalk (root : string) (config : Config) : list WalkItem :=
  SourceFile <$> threeFiles.

(** The same walk, failing on a fourth file. *)
Definition failingWalk (root : string) (config : Config) : list WalkItem :=
  (SourceFile <$> threeFiles)
  ++ [WalkError "failed to parse file proj/x.go: expected 'package'";
      SourceFile orderFile].

(** What a node's walk returns, given what the flat walk over the items
    it reaches returns. *)
Definition agrees (n : Node) (res : WalkResult) (err : option string) : Prop :=
  match err with
  | Some e => res = WalkErr e
  | None => res = WalkNil ∨ (res = SkipDir ∧ nodeIsDir n = true)
  end.

(** A host for the walk of a project [proj] of module [m]: paths are
    joined with a slash, made relative by dropping the root, and every
    [.go] file imports [fmt]. *)
Definition slashJoin (a b : string) : string := a +:+ "/" +:+ b.

Definition dropRoot (root path : string) : string :=
  if String.eqb root path then "."
  else String.substring (String.length root + 1) (String.length path) path.

Definition parentOf (path : string) : string :=
  if String.eqb path "proj/main.go" then "proj"
  else if String.eqb path "proj/domain/a.go" then "proj/domain"
  else if String.eqb path "proj/domain" then "proj"
  else if String.eqb path "proj" then "."
  else ".".

Definition moduleOfProj (path : string) : (string * string) + string :=
  inl ("proj", "m").

Definition importsFmt (path : string) : list string + string :=
  inl [String quote ("fmt" +:+ String quote EmptyString)].

Definition vendorConfig : Config :=
  {| Layers := Layers twoLayers; DependencyRules := domainRules;
     ExcludeDirs := ["**/vendor"] |}.

(** A host where only [proj/go.mod] exists, declaring the module [m]. *)
Definition onlyProjGoMod (path : string) : bool := String.eqb path "proj/go.mod".

Definition readGoMod (path : string) : string + string := inl "module m".

Definition parseGoMod (path data : string) : option string + string := inl (Some "m").

(** The unit a line of [checkDependencies] names, and the dependency. *)
Definition linePkg (line : Line) : string :=
  match line with
  | DebugInLayer pkg _ | WarnUnknownLayer pkg | WarnImportsUnknown pkg _
  | LayerViolation pkg _ _ | DebugLayerDeps pkg _ _ | ExternalViolation pkg _ _ => pkg
  end.

Definition lineDep (line : Line) : string :=
  match line with
  | DebugInLayer _ dep | WarnImportsUnknown _ dep
  | LayerViolation _ _ dep | DebugLayerDeps _ _ dep | ExternalViolation _ _ dep => dep
  | WarnUnknownLayer pkg => pkg
  end.

(** * Properties *)

(** ** Facts about strings *)

Lemma app_nil_s (t : string) : EmptyString +:+ t = t.
Proof. reflexivity. Qed.

Lemma app_cons_s (c : ascii) (s t : string) :
  String c s +:+ t = String c (s +:+ t).
Proof. reflexivity. Qed.

Lemma app_empty_r (s : string) : s +:+ EmptyString = s.
Proof. induction s as [|c s IH]; [done | by rewrite app_cons_s, IH]. Qed.

Lemma app_assoc_s (a b c : string) : (a +:+ b) +:+ c = a +:+ (b +:+ c).
Proof.
  induction a as [|x a IH]; [done | by rewrite !app_cons_s, IH].
Qed.

Lemma prefix_empty (s : string) : String.prefix EmptyString s = true.
Proof. by destruct s. Qed.

Lemma prefix_cons (a b : ascii) (p s : string) :
  String.prefix (String a p) (String b s)
  = if ascii_dec a b then String.prefix p s else false.
Proof. reflexivity. Qed.

Lemma prefix_true_iff (p s : string) :
  String.prefix p s = true ↔ ∃ t, s = p +:+ t.
Proof.
  revert s. induction p as [|a p IH]; intros s.
  - rewrite prefix_empty. split; [intros _; by exists s | done].
  - destruct s as [|b s].
    + split; [done | intros [t Ht]; by rewrite app_cons_s in Ht].
    + rewrite prefix_cons. destruct (ascii_dec a b) as [->|Hne].
      * rewrite IH. split; intros [t Ht]; exists t;
          rewrite app_cons_s in *; congruence.
      * split; [done | intros [t Ht]; rewrite app_cons_s in Ht; congruence].
Qed.

Lemma prefix_star_cons (c : ascii) (s : string) :
  String.prefix "*" (String c s) = bool_decide (c = "*"%char).
Proof.
  rewrite prefix_cons. destruct (ascii_dec "*" c) as [<-|Hne].
  - by rewrite prefix_empty.
  - symmetry. apply bool_decide_eq_false. congruence.
Qed.

Lemma Contains_star_free (s : string) :
  star_free s → Strings.Contains s "*" = false.
Proof.
  induction s as [|c s IH]; [done|].
  intros [Hc Hs]. cbn [Strings.Contains].
  rewrite prefix_star_cons, (IH Hs), orb_false_r.
  by apply bool_decide_eq_false.
Qed.

Lemma Contains_star_app (a b : string) :
  Strings.Contains (a +:+ String "*" b) "*" = true.
Proof.
  induction a as [|c a IH].
  - rewrite app_nil_s. cbn [Strings.Contains]. by rewrite prefix_star_cons.
  - rewrite app_cons_s. cbn [Strings.Contains]. rewrite IH. apply orb_true_r.
Qed.

Lemma genSplit_star_head (cur a b : string) :
  star_free a →
  ∃ rest, Strings.genSplit 0 cur (a +:+ String "*" b) "*" = (cur +:+ a) :: rest.
Proof.
  revert cur. induction a as [|c a IH]; intros cur Hfree.
  - rewrite app_nil_s. cbn [Strings.genSplit]. rewrite prefix_star_cons.
    rewrite bool_decide_eq_true_2 by done. rewrite app_empty_r. eauto.
  - destruct Hfree as [Hc Ha].
    rewrite app_cons_s. cbn [Strings.genSplit]. rewrite prefix_star_cons.
    rewrite bool_decide_eq_false_2 by done.
    destruct (IH (cur +:+ String c EmptyString) Ha) as [rest ->].
    exists rest. by rewrite app_assoc_s, app_cons_s, app_nil_s.
Qed.

Lemma genSplit_cons (skip : nat) (cur s sep : string) :
  ∃ p ps, Strings.genSplit skip cur s sep = p :: ps.
Proof.
  revert skip cur.
  induction s as [|c s IH]; intros skip cur; cbn [Strings.genSplit]; [eauto|].
  destruct skip; [|done]. destruct (String.prefix sep (String c s)); eauto.
Qed.

(** [parts[0]] in [matchPattern] is always in range. *)
Lemma Split_star_cons (s : string) : ∃ p ps, Strings.Split s "*" = p :: ps.
Proof. apply genSplit_cons. Qed.

(** Every string either is free of ['*'] or decomposes around its first
    ['*']. *)
Lemma first_star_decompose (p : string) :
  star_free p ∨ ∃ a b, star_free a ∧ p = a +:+ String "*" b.
Proof.
  induction p as [|c p IH]; [by left|].
  destruct (decide (c = "*"%char)) as [->|Hne].
  - right. by exists EmptyString, p.
  - destruct IH as [Hfree | (a & b & Ha & ->)].
    + left. by split.
    + right. exists (String c a), b. by repeat split.
Qed.

Lemma matchPattern_literal (c p : string) :
  star_free p → matchPattern c p = true ↔ c = p.
Proof.
  intros Hfree. unfold matchPattern.
  rewrite (Contains_star_free _ Hfree). apply String.eqb_eq.
Qed.

Lemma matchPattern_wildcard (c a b : string) :
  star_free a →
  matchPattern c (a +:+ String "*" b) = true ↔ ∃ t, c = a +:+ t.
Proof.
  intros Hfree. unfold matchPattern, Strings.Split, Strings.HasPrefix.
  rewrite Contains_star_app.
  destruct (genSplit_star_head EmptyString a b Hfree) as [rest ->].
  simpl. apply prefix_true_iff.
Qed.

(** C2: a rule pattern without ['*'] matches exactly the candidate equal
    to it; a pattern with a ['*'] matches exactly the candidates that
    start with the part of the pattern before its first ['*'], whatever
    follows that ['*'] in the pattern.  By [first_star_decompose] every
    pattern falls under one of the two cases. *)
Theorem matchPattern_exact_or_prefix (c p : string) :
  (star_free p → (matchPattern c p = true ↔ c = p))
  ∧ (∀ a b, p = a +:+ String "*" b → star_free a →
       (matchPattern c p = true ↔ ∃ t, c = a +:+ t)).
Proof.
  split.
  - apply matchPattern_literal.
  - intros a b -> Ha. by apply matchPattern_wildcard.
Qed.

Lemma matchPattern_exact_or_prefix_witness :
  star_free "app" ∧ matchPattern "application" "app*" = true
  ∧ star_free "domain" ∧ matchPattern "domain" "domain" = true.
Proof.
  assert (Happ : star_free "app") by (repeat split; discriminate).
  assert (Hdom : star_free "domain") by (repeat split; discriminate).
  split; [exact Happ|]. split.
  - apply (proj2 (matchPattern_exact_or_prefix "application" "app*")
             "app" EmptyString eq_refl Happ).
    by exists "lication".
  - split; [exact Hdom|].
    by apply (proj1 (matchPattern_exact_or_prefix "domain" "domain") Hdom).
Defined.

(** C9: a rule pattern that begins with ['*'] matches every candidate,
    the empty one included; so a rule whose [From] is ["*"] applies to an
    edge whenever its [To] matches, one whose [To] is ["*"] whenever its
    [From] matches, and a rule with both governs every edge that reaches
    it, layer name or external package alike. *)
Theorem matchPattern_leading_star (c rest : string) :
  matchPattern c (String "*" rest) = true
  ∧ matchPattern EmptyString (String "*" rest) = true
  ∧ (∀ to allow dep,
       applies {| From := "*"; To := to; Allow := allow |} c dep
       = matchPattern dep to)
  ∧ (∀ from allow layer,
       applies {| From := from; To := "*"; Allow := allow |} layer c
       = matchPattern layer from)
  ∧ (∀ allow layer, applies {| From := "*"; To := "*"; Allow := allow |} layer c = true).
Proof.
  assert (Hstar : ∀ x r, matchPattern x (String "*" r) = true).
  { intros x r. apply (matchPattern_wildcard x EmptyString r I). by exists x. }
  repeat split; try apply Hstar.
  - intros to allow dep. unfold applies; cbn [From To]. by rewrite Hstar.
  - intros from allow layer. unfold applies; cbn [From To].
    by rewrite Hstar, andb_true_r.
  - intros allow layer. unfold applies; cbn [From To]. by rewrite !Hstar.
Qed.

(** ** Running the monad *)

Lemma bind_run {A B} (m : M A) (f : A → M B) (w : World) :
  (m ≫= f) w = f (m w).1 (m w).2.
Proof. unfold mbind, M_bind. by destruct (m w). Qed.

Lemma emit_nil (w : World) : emit [] w = w.
Proof. destruct w. unfold emit. cbn. by rewrite app_nil_r. Qed.

Lemma emit_emit (a b : list Line) (w : World) :
  emit b (emit a w) = emit (a ++ b) w.
Proof. unfold emit. cbn. by rewrite app_assoc. Qed.

Lemma visits_elem_of {V} (m : gmap string V) (order : list string) (k : string) :
  visits m order → k ∈ order ↔ is_Some (m !! k).
Proof.
  intros [_ Hdom]. by rewrite <- elem_of_dom, <- Hdom, elem_of_list_to_set.
Qed.

(** ** Layer classification *)

Section Classification.

Variable Separator : ascii.
Variable Match : string → string → bool.

Lemma layerMatches_true (layerConfig : LayerConfig) (p : string) :
  layerMatches Match layerConfig p = true ↔ inLayer Match layerConfig p.
Proof.
  unfold layerMatches, inLayer. rewrite existsb_exists.
  by setoid_rewrite list_elem_of_In.
Qed.

Lemma layerMatches_false (layerConfig : LayerConfig) (p : string) :
  layerMatches Match layerConfig p = false ↔ ¬ inLayer Match layerConfig p.
Proof. rewrite <- layerMatches_true. by destruct (layerMatches _ _ _). Qed.

Lemma rangeLayers_unmatched layers order p w :
  unmatched Match layers order p →
  rangeLayers Match layers order p w = (None, w).
Proof.
  induction 1 as [|layer order Hl _ IH]; [done|].
  cbn [rangeLayers]. destruct (layers !! layer) as [lc|] eqn:Hlc; [|done].
  by rewrite (proj2 (layerMatches_false lc p) (Hl lc eq_refl)).
Qed.

Lemma rangeLayers_first layers pre layer post layerConfig p w :
  unmatched Match layers pre p →
  layers !! layer = Some layerConfig →
  inLayer Match layerConfig p →
  rangeLayers Match layers (pre ++ layer :: post) p w
  = (Some layer, emit [DebugInLayer p layer] w).
Proof.
  intros Hpre Hlc Hin. induction Hpre as [|l pre Hl _ IH].
  - cbn [app rangeLayers]. rewrite Hlc.
    by rewrite (proj2 (layerMatches_true layerConfig p) Hin).
  - cbn [app rangeLayers]. destruct (layers !! l) as [lc|] eqn:Hlc'; [|done].
    by rewrite (proj2 (layerMatches_false lc p) (Hl lc eq_refl)).
Qed.

(** A visiting order either meets no layer containing [p] or splits at
    the first one that does. *)
Lemma first_layer_cases layers order p :
  unmatched Match layers order p
  ∨ ∃ pre layer post layerConfig,
      order = pre ++ layer :: post ∧ unmatched Match layers pre p
      ∧ layers !! layer = Some layerConfig ∧ inLayer Match layerConfig p.
Proof.
  induction order as [|l order IH]; [left; constructor|].
  destruct (layers !! l) as [lc|] eqn:Hlc.
  - destruct (layerMatches Match lc p) eqn:Hm.
    + right. exists [], l, order, lc. repeat split; [constructor|done|].
      by apply layerMatches_true.
    + destruct IH as [Hnone | (pre & layer & post & lc' & -> & Hpre & Hl & Hin)].
      * left. constructor; [|done]. intros lc' ?. simplify_eq.
        by apply layerMatches_false.
      * right. exists (l :: pre), layer, post, lc'. repeat split; [|done..].
        constructor; [|done]. intros lc'' ?. simplify_eq.
        by apply layerMatches_false.
  - destruct IH as [Hnone | (pre & layer & post & lc' & -> & Hpre & Hl & Hin)].
    + left. constructor; [|done]. intros lc' ?. simplify_eq.
    + right. exists (l :: pre), layer, post, lc'. repeat split; [|done..].
      constructor; [|done]. intros lc'' ?. simplify_eq.
Qed.

Lemma getLayerForPackage_found order pkgPath relPath config w layer :
  rangeLayers Match (Layers config) order (Filepath.ToSlash Separator pkgPath) w
  = (Some layer, emit [DebugInLayer (Filepath.ToSlash Separator pkgPath) layer] w) →
  getLayerForPackage Separator Match order pkgPath relPath config w
  = (layer, emit [DebugInLayer (Filepath.ToSlash Separator pkgPath) layer] w).
Proof. intros H. unfold getLayerForPackage. by rewrite bind_run, H. Qed.

Lemma getLayerForPackage_fallback order pkgPath relPath config w :
  rangeLayers Match (Layers config) order (Filepath.ToSlash Separator pkgPath) w
  = (None, w) →
  getLayerForPackage Separator Match order pkgPath relPath config w
  = if String.eqb relPath "."
    then (layerRoot, w)
    else (layerUnknown, emit [WarnUnknownLayer (Filepath.ToSlash Separator pkgPath)] w).
Proof.
  intros H. unfold getLayerForPackage. rewrite bind_run, H. cbn [fst snd].
  by destruct (String.eqb relPath ".").
Qed.

(** C3, as the code has it: whatever the module-relative path is, the
    classifier tests the slash form of the module-qualified package path
    against the patterns of the layers in the order they are visited,
    and returns the first layer one of whose patterns matches it,
    printing the debug line for it. *)
Theorem getLayerForPackage_first_match
    (pre post : list string) (layer : string) (layerConfig : LayerConfig)
    (pkgPath relPath : string) (config : Config) (w : World) :
  unmatched Match (Layers config) pre (Filepath.ToSlash Separator pkgPath) →
  Layers config !! layer = Some layerConfig →
  inLayer Match layerConfig (Filepath.ToSlash Separator pkgPath) →
  getLayerForPackage Separator Match (pre ++ layer :: post) pkgPath relPath config w
  = (layer, emit [DebugInLayer (Filepath.ToSlash Separator pkgPath) layer] w).
Proof.
  intros Hpre Hlc Hin. apply getLayerForPackage_found.
  by apply rangeLayers_first with layerConfig.
Qed.

(** C4: when no declared layer contains the unit's path, a unit at the
    root of its module (relative path ["."], as [filepath.Rel] gives it)
    is classified [root] and nothing is printed; any other unit is
    classified [unknown] and the warning naming the unit is printed. *)
Theorem getLayerForPackage_unmatched
    (order : list string) (pkgPath relPath : string) (config : Config) (w : World) :
  unmatched Match (Layers config) order (Filepath.ToSlash Separator pkgPath) →
  (relPath = "." →
     getLayerForPackage Separator Match order pkgPath relPath config w
     = ("root", w))
  ∧ (relPath ≠ "." →
     getLayerForPackage Separator Match order pkgPath relPath config w
     = ("unknown", emit [WarnUnknownLayer (Filepath.ToSlash Separator pkgPath)] w)).
Proof.
  intros Hnone.
  rewrite (getLayerForPackage_fallback _ _ _ _ _ (rangeLayers_unmatched _ _ _ w Hnone)).
  split.
  - intros ->. done.
  - intros Hne. by rewrite (proj2 (String.eqb_neq relPath ".") Hne).
Qed.

(** C8: when the layers containing the unit's path are at most one, the
    classifier gives the same layer, and prints the same line, under any
    two orders in which Go may visit the layers. *)
Theorem getLayerForPackage_deterministic
    (order1 order2 : list string) (pkgPath relPath : string)
    (config : Config) (w : World) :
  visits (Layers config) order1 →
  visits (Layers config) order2 →
  (∀ l1 l2 lc1 lc2,
     Layers config !! l1 = Some lc1 → Layers config !! l2 = Some lc2 →
     inLayer Match lc1 (Filepath.ToSlash Separator pkgPath) →
     inLayer Match lc2 (Filepath.ToSlash Separator pkgPath) →
     l1 = l2) →
  getLayerForPackage Separator Match order1 pkgPath relPath config w
  = getLayerForPackage Separator Match order2 pkgPath relPath config w.
Proof.
  intros Hv1 Hv2 Hone.
  set (p := Filepath.ToSlash Separator pkgPath) in *.
  destruct (first_layer_cases (Layers config) order1 p)
    as [Hnone1 | (pre1 & l1 & post1 & lc1 & -> & Hpre1 & Hl1 & Hin1)];
  destruct (first_layer_cases (Layers config) order2 p)
    as [Hnone2 | (pre2 & l2 & post2 & lc2 & -> & Hpre2 & Hl2 & Hin2)].
  - by rewrite !getLayerForPackage_fallback by by apply rangeLayers_unmatched.
  - exfalso. assert (Hmem : l2 ∈ order1).
    { apply (visits_elem_of _ _ _ Hv1). by eexists. }
    unfold unmatched in Hnone1. rewrite Forall_forall in Hnone1.
    by apply (Hnone1 l2 Hmem lc2).
  - exfalso. assert (Hmem : l1 ∈ order2).
    { apply (visits_elem_of _ _ _ Hv2). by eexists. }
    unfold unmatched in Hnone2. rewrite Forall_forall in Hnone2.
    by apply (Hnone2 l1 Hmem lc1).
  - rewrite (Hone l1 l2 lc1 lc2 Hl1 Hl2 Hin1 Hin2) in *.
    rewrite !(getLayerForPackage_found _ _ _ _ _ l2); [done|..];
      by eapply rangeLayers_first.
Qed.

End Classification.

(** Deciding [unmatched] on a concrete configuration. *)
Lemma unmatched_check (Match : string → string → bool)
    (layers : gmap string LayerConfig) (order : list string) (p : string) :
  forallb (λ layer, match layers !! layer with
                    | Some layerConfig => negb (layerMatches Match layerConfig p)
                    | None => true
                    end) order = true →
  unmatched Match layers order p.
Proof.
  rewrite forallb_forall. intros H. apply Forall_forall. intros layer Hin lc Hlc.
  apply list_elem_of_In, H in Hin. rewrite Hlc in Hin.
  apply layerMatches_false. by destruct (layerMatches Match lc p).
Qed.

Lemma getLayerForPackage_first_match_witness :
  getLayerForPackage "/" Doublestar.Match ["application"; "domain"]
    "m/domain/order" "domain/order" twoLayers start
  = ("domain", emit [DebugInLayer "m/domain/order" "domain"] start).
Proof.
  apply (getLayerForPackage_first_match "/" Doublestar.Match
           ["application"] [] "domain"
           {| Paths := ["**/domain/**"; "**/domain/**/service/**"] |}).
  - by apply unmatched_check.
  - reflexivity.
  - exists "**/domain/**". split; [constructor | reflexivity].
Defined.

(** C3, as the claim states it, fails: the module-relative path
    ["domain/order"] of the unit ["m/domain/order"] is in the only declared
    layer, yet the classifier, called as [parseProject] calls it, answers
    [unknown]: it tested ["m/domain/order"]. *)
Lemma getLayerForPackage_not_relative_path :
  inLayer Doublestar.Match {| Paths := ["domain/**"] |} "domain/order"
  ∧ Layers relativeLayer !! "domain" = Some {| Paths := ["domain/**"] |}
  ∧ (getLayerForPackage "/" Doublestar.Match ["domain"]
       "m/domain/order" "domain/order" relativeLayer start).1 = "unknown"
  ∧ Layer <$> packages (parseProject "/" Doublestar.Match (anySchedule ["domain"])
                          relativeLayer [SourceFile orderFile] start).2
                !! "m/domain/order"
    = Some "unknown".
Proof.
  split; [exists "domain/**"; split; [constructor | reflexivity]|].
  split; [reflexivity|]. split; [reflexivity|]. by vm_compute.
Qed.

Lemma getLayerForPackage_unmatched_witness :
  getLayerForPackage "/" Doublestar.Match ["domain"; "application"]
    "m/." "." twoLayers start = ("root", start)
  ∧ getLayerForPackage "/" Doublestar.Match ["domain"; "application"]
      "m/cmd" "cmd" twoLayers start
    = ("unknown", emit [WarnUnknownLayer "m/cmd"] start).
Proof.
  split.
  - apply (getLayerForPackage_unmatched "/" Doublestar.Match
             ["domain"; "application"] "m/." "." twoLayers start);
      [by apply unmatched_check | reflexivity].
  - apply (getLayerForPackage_unmatched "/" Doublestar.Match
             ["domain"; "application"] "m/cmd" "cmd" twoLayers start);
      [by apply unmatched_check | discriminate].
Defined.

Lemma getLayerForPackage_deterministic_witness :
  getLayerForPackage "/" Doublestar.Match ["domain"; "application"]
    "m/domain/order" "domain/order" twoLayers start
  = getLayerForPackage "/" Doublestar.Match ["application"; "domain"]
      "m/domain/order" "domain/order" twoLayers start.
Proof.
  apply getLayerForPackage_deterministic.
  - split; compute_done.
  - split; compute_done.
  - assert (Hdom : map_Forall (λ l lc,
        layerMatches Doublestar.Match lc "m/domain/order" = true → l = "domain")
        (Layers twoLayers)) by compute_done.
    intros l1 l2 lc1 lc2 H1 H2 Hin1 Hin2.
    rewrite (Hdom l1 lc1 H1), (Hdom l2 lc2 H2); [done|..];
      by apply layerMatches_true.
Defined.

(** A path in two layers: the answer follows the visiting order, which
    the program leaves to Go. *)
Example getLayerForPackage_two_layers :
  (getLayerForPackage "/" Doublestar.Match ["domain"; "application"]
     "m/app/domain" "app/domain" twoLayers start).1 = "domain"
  ∧ (getLayerForPackage "/" Doublestar.Match ["application"; "domain"]
       "m/app/domain" "app/domain" twoLayers start).1 = "application".
Proof. split; reflexivity. Qed.

(** An empty relative path is not what the code takes for the module
    root: [filepath.Rel] never returns it, and the classifier would answer
    [unknown]. *)
Example getLayerForPackage_empty_relative_path :
  (getLayerForPackage "/" Doublestar.Match [] "m/" EmptyString twoLayers start).1 = "unknown".
Proof. reflexivity. Qed.

(** ** Rule evaluation *)

Lemma elem_of_flat_map {A B} (f : A → list B) (l : list A) (y : B) :
  y ∈ flat_map f l ↔ ∃ x, x ∈ l ∧ y ∈ f x.
Proof.
  rewrite list_elem_of_In, in_flat_map.
  by setoid_rewrite list_elem_of_In.
Qed.

(** A loop whose body only prints, lines depending on the table alone. *)
Lemma forEach_emit {A} (xs : list A) (body : A → M unit)
    (lines : gmap string PackageInfo → A → list Line) :
  (∀ x w, body x w = (tt, emit (lines (packages w) x) w)) →
  ∀ w, forEach xs body w = (tt, emit (flat_map (lines (packages w)) xs) w).
Proof.
  intros Hbody. induction xs as [|x xs IH]; intros w.
  - cbn. by rewrite emit_nil.
  - cbn [forEach flat_map]. rewrite bind_run, Hbody. cbn [fst snd].
    rewrite IH. cbn [emit packages]. by rewrite emit_emit.
Qed.

Lemma rangeRules_run rules layer dep violation w :
  rangeRules rules layer dep violation w
  = (tt, emit (if denied rules layer dep then [violation] else []) w).
Proof.
  unfold denied. induction rules as [|rule rules IH]; cbn [rangeRules find].
  - by rewrite emit_nil.
  - fold (applies rule layer dep). destruct (applies rule layer dep); [|done].
    destruct (Allow rule); cbn; [by rewrite emit_nil | done].
Qed.

Lemma find_governs rules layer dep rule :
  find (λ r, applies r layer dep) rules = Some rule ↔ governs rules layer dep rule.
Proof.
  unfold governs. induction rules as [|r rules IH]; cbn [find].
  - split; [done | intros (pre & post & H & _); by destruct pre].
  - destruct (applies r layer dep) eqn:Hr.
    + split.
      * intros [= <-]. exists [], rules. by repeat split.
      * intros ([|r' pre] & post & Heq & Hpre & Hrule); simplify_eq/=; [done|].
        apply Forall_cons in Hpre as [Hr' _]. congruence.
    + rewrite IH. split.
      * intros (pre & post & -> & Hpre & Hrule).
        exists (r :: pre), post. repeat split; [|done]. by constructor.
      * intros ([|r' pre] & post & Heq & Hpre & Hrule); simplify_eq/=;
          [congruence|].
        apply Forall_cons in Hpre as [_ Hpre]. by exists pre, post.
Qed.

Lemma denied_governs rules layer dep rule :
  governs rules layer dep rule → denied rules layer dep = negb (Allow rule).
Proof. intros H. unfold denied. by rewrite (proj2 (find_governs _ _ _ _) H). Qed.

Lemma denied_no_rule rules layer dep :
  Forall (λ r, applies r layer dep = false) rules → denied rules layer dep = false.
Proof.
  intros H. unfold denied.
  destruct (find _ rules) as [rule|] eqn:Hfind; [|done].
  apply find_some in Hfind as [Hin Happ]. rewrite Forall_forall in H.
  apply list_elem_of_In, H in Hin. congruence.
Qed.

Lemma rangeMap_emit {V} (m : gmap string V) (order : list string)
    (body : string → V → M unit) (lines : string → V → list Line) :
  (∀ k v w, body k v w = (tt, emit (lines k v) w)) →
  ∀ w, rangeMap m order body w
       = (tt, emit (flat_map (λ k, match m !! k with
                                   | Some v => lines k v
                                   | None => []
                                   end) order) w).
Proof.
  intros Hbody w. unfold rangeMap.
  apply (forEach_emit order _ (λ _ k, match m !! k with
                                      | Some v => lines k v
                                      | None => []
                                      end)).
  clear w. intros k w. destruct (m !! k); [done | by rewrite emit_nil].
Qed.

Lemma checkDependencies_run order orderLayerDeps orderExternalDeps config w :
  checkDependencies order orderLayerDeps orderExternalDeps config w
  = (tt, emit (flat_map (checkLines orderLayerDeps orderExternalDeps config (packages w))
                 order) w).
Proof.
  unfold checkDependencies, rangePackages. apply forEach_emit.
  clear w. intros k w. rewrite bind_run. cbn [getPackages fst snd].
  unfold checkLines. destruct (packages w !! k) as [pkg|]; [|by rewrite emit_nil].
  rewrite bind_run.
  rewrite (rangeMap_emit (LayerDeps pkg) _ _ (λ layer _,
    (if denied (DependencyRules config) (Layer pkg) layer
     then [LayerViolation (Path pkg) (Layer pkg) layer] else [])
    ++ [DebugLayerDeps (Path pkg) (Layer pkg) layer])).
  2:{ intros layer _ w'. by rewrite bind_run, rangeRules_run, <- emit_emit. }
  cbn [fst snd].
  rewrite (rangeMap_emit (ExternalDeps pkg) _ _ (λ extPkg _,
    if denied (DependencyRules config) (Layer pkg) extPkg
    then [ExternalViolation (Path pkg) (Layer pkg) extPkg] else [])).
  2:{ intros extPkg _ w'. by rewrite rangeRules_run. }
  by rewrite emit_emit.
Qed.

(** A layer violation is printed for exactly the denied layer edges. *)
Lemma LayerViolation_printed orderLayerDeps orderExternalDeps config pkgs order p l L :
  LayerViolation p l L
    ∈ flat_map (checkLines orderLayerDeps orderExternalDeps config pkgs) order
  ↔ denied (DependencyRules config) l L = true
    ∧ ∃ k pkg, k ∈ order ∧ pkgs !! k = Some pkg ∧ Path pkg = p ∧ Layer pkg = l
        ∧ L ∈ orderLayerDeps k ∧ is_Some (LayerDeps pkg !! L).
Proof.
  rewrite elem_of_flat_map. split.
  - intros (k & Hk & Hin). unfold checkLines in Hin.
    destruct (pkgs !! k) as [pkg|] eqn:Hpkg; [|by apply elem_of_nil in Hin].
    apply elem_of_app in Hin as [Hin|Hin]; apply elem_of_flat_map in Hin
      as (x & Hx & Hin).
    + destruct (LayerDeps pkg !! x) eqn:Hdep; [|by apply elem_of_nil in Hin].
      apply elem_of_app in Hin as [Hin|Hin].
      * destruct (denied _ (Layer pkg) x) eqn:Hden; [|by apply elem_of_nil in Hin].
        apply list_elem_of_singleton in Hin. simplify_eq.
        split; [done|]. exists k, pkg. by repeat split.
      * by apply list_elem_of_singleton in Hin.
    + destruct (ExternalDeps pkg !! x); [|by apply elem_of_nil in Hin].
      destruct (denied _ (Layer pkg) x); [|by apply elem_of_nil in Hin].
      by apply list_elem_of_singleton in Hin.
  - intros (Hden & k & pkg & Hk & Hpkg & <- & <- & HL & [b Hb]).
    exists k. split; [done|]. unfold checkLines. rewrite Hpkg.
    apply elem_of_app. left. apply elem_of_flat_map. exists L. split; [done|].
    rewrite Hb, Hden. apply elem_of_app. left. by apply list_elem_of_singleton.
Qed.

(** C1: for a unit of the table and a layer [L] of its layer
    dependencies, the rules are scanned in declaration order and the first
    rule that applies to the edge governs it, whatever rules follow: the
    violation line naming the unit, its layer and [L] is printed when that
    rule denies, and is not printed when it allows or when no rule
    applies.  With the rules [(domain, domain, allow), (domain, *, deny)]
    the edge domain -> domain prints no violation and the edge
    domain -> application prints one. *)
Theorem checkDependencies_first_match
    (order : list string) (orderLayerDeps orderExternalDeps : string → list string)
    (config : Config) (w : World) (k : string) (pkg : PackageInfo) (L : string) :
  visits (packages w) order →
  visits (LayerDeps pkg) (orderLayerDeps k) →
  packages w !! k = Some pkg →
  is_Some (LayerDeps pkg !! L) →
  ∃ out,
    checkDependencies order orderLayerDeps orderExternalDeps config w = (tt, emit out w)
    ∧ (∀ rule, governs (DependencyRules config) (Layer pkg) L rule →
         if Allow rule
         then LayerViolation (Path pkg) (Layer pkg) L ∉ out
         else LayerViolation (Path pkg) (Layer pkg) L ∈ out)
    ∧ (Forall (λ rule, applies rule (Layer pkg) L = false) (DependencyRules config) →
         LayerViolation (Path pkg) (Layer pkg) L ∉ out)
    ∧ (DependencyRules config = domainRules → Layer pkg = "domain" →
         (L = "domain" → LayerViolation (Path pkg) "domain" "domain" ∉ out)
         ∧ (L = "application" →
              LayerViolation (Path pkg) "domain" "application" ∈ out)).
Proof.
  intros Hord Hdeps Hpkg HL.
  exists (flat_map (checkLines orderLayerDeps orderExternalDeps config (packages w)) order).
  split; [apply checkDependencies_run|].
  assert (Hiff : LayerViolation (Path pkg) (Layer pkg) L
      ∈ flat_map (checkLines orderLayerDeps orderExternalDeps config (packages w)) order
    ↔ denied (DependencyRules config) (Layer pkg) L = true).
  { rewrite LayerViolation_printed. split; [by intros [? _]|]. intros Hden.
    split; [done|]. exists k, pkg. repeat split; [|done| |done].
    - apply (visits_elem_of _ _ _ Hord). by eexists.
    - by apply (visits_elem_of _ _ _ Hdeps). }
  split; [|split].
  - intros rule Hgov. pose proof (denied_governs _ _ _ _ Hgov) as Hden.
    destruct (Allow rule); cbn beta iota; rewrite Hiff; cbn in Hden; congruence.
  - intros Hnone. by rewrite Hiff, (denied_no_rule _ _ _ Hnone).
  - intros Hrules Hlayer. rewrite Hrules, Hlayer in Hiff.
    split; intros ->; by rewrite Hiff.
Qed.

Lemma checkDependencies_first_match_witness :
  ∃ out,
    checkDependencies ["m/domain/a"] (λ _, ["domain"; "application"]) (λ _, ["fmt"])
      twoLayers checkedWorld = (tt, emit out checkedWorld)
    ∧ LayerViolation "m/domain/a" "domain" "application" ∈ out.
Proof.
  destruct (checkDependencies_first_match
              ["m/domain/a"] (λ _, ["domain"; "application"]) (λ _, ["fmt"])
              twoLayers checkedWorld "m/domain/a" domainUnit "application")
    as (out & Hrun & _ & _ & Hexample).
  - split; compute_done.
  - split; compute_done.
  - reflexivity.
  - by exists true.
  - exists out. split; [exact Hrun|]. by apply Hexample.
Defined.

(** C10: [checkDependencies] leaves the table of units as it found it,
    so every field of every unit is the same before and after, whatever
    the rules and the verdicts. *)
Theorem checkDependencies_frame
    (order : list string) (orderLayerDeps orderExternalDeps : string → list string)
    (config : Config) (w : World) :
  packages (checkDependencies order orderLayerDeps orderExternalDeps config w).2
  = packages w.
Proof. by rewrite checkDependencies_run. Qed.

(** ** Import graph *)

Lemma stepPkg_static mods pkgs p imp : static (stepPkg mods pkgs p imp) = static p.
Proof.
  unfold stepPkg. destruct (isExternal _ _); [done|]. by destruct (pkgs !! imp).
Qed.

Lemma sameUnits_lookup a b k :
  sameUnits a b →
  match a !! k, b !! k with
  | Some p, Some q => static p = static q
  | None, None => True
  | _, _ => False
  end.
Proof.
  intros H. specialize (H k).
  destruct (a !! k), (b !! k); cbn in H; try done. congruence.
Qed.

Lemma stepPkg_sameUnits mods a b p imp :
  sameUnits a b → stepPkg mods a p imp = stepPkg mods b p imp.
Proof.
  intros H. unfold stepPkg. destruct (isExternal _ _); [done|].
  pose proof (sameUnits_lookup a b imp H) as Himp.
  destruct (a !! imp) as [x|], (b !! imp) as [y|]; try done.
  unfold static in Himp. injection Himp as HP _ HL _. by rewrite ?HP, ?HL.
Qed.

Lemma importLines_sameUnits mods a b path imp :
  sameUnits a b → importLines mods a path imp = importLines mods b path imp.
Proof.
  intros H. unfold importLines. destruct (isExternal _ _); [done|].
  pose proof (sameUnits_lookup a b imp H) as Himp.
  destruct (a !! imp) as [x|], (b !! imp) as [y|]; try done.
  unfold static in Himp. injection Himp as HP _ HL _. by rewrite ?HP, ?HL.
Qed.

Lemma sameUnits_alter a b k (f : PackageInfo → PackageInfo) :
  sameUnits a b → (∀ p, static (f p) = static p) → sameUnits (alter f k a) b.
Proof.
  intros H Hf j. rewrite lookup_alter. case_decide as Hkj; [subst j|done].
  rewrite <- (H k). destruct (a !! k); [|done]. cbn. by rewrite Hf.
Qed.

Lemma foldl_stepPkg_static mods pkgs imps p :
  static (foldl (stepPkg mods pkgs) p imps) = static p.
Proof.
  revert p. induction imps as [|imp imps IH]; intros p; [done|].
  cbn [foldl]. by rewrite IH, stepPkg_static.
Qed.

Lemma alter_alter (f g : PackageInfo → PackageInfo) k (m : gmap string PackageInfo) :
  alter g k (alter f k m) = alter (λ p, g (f p)) k m.
Proof.
  apply map_eq. intros j. rewrite !lookup_alter.
  repeat case_decide; try done. by destruct (m !! k).
Qed.

Lemma analyzeImport_run mods k pkg imp w :
  analyzeImport mods k pkg imp w
  = (tt, {| packages := alter (λ p, stepPkg mods (packages w) p imp) k (packages w);
            stdout := stdout w ++ importLines mods (packages w) (Path pkg) imp |}).
Proof.
  unfold analyzeImport, stepPkg, importLines.
  destruct (isExternal _ _).
  - unfold update. by rewrite app_nil_r.
  - rewrite bind_run. cbn [getPackages fst snd].
    destruct (packages w !! imp) as [impPkg|].
    + rewrite bind_run. cbn [update fst snd].
      destruct (String.eqb _ _); [done|]. cbn. by rewrite app_nil_r.
    + cbn. rewrite app_nil_r, alter_id by done. by destruct w.
Qed.

Lemma imports_run mods pkgs0 k pkg imps w :
  sameUnits (packages w) pkgs0 →
  forEach imps (analyzeImport mods k pkg) w
  = (tt, {| packages := alter (λ p, foldl (stepPkg mods pkgs0) p imps) k (packages w);
            stdout := stdout w ++ flat_map (importLines mods pkgs0 (Path pkg)) imps |}).
Proof.
  revert w. induction imps as [|imp imps IH]; intros w Hsame.
  - cbn. rewrite app_nil_r, alter_id by done. by destruct w.
  - cbn [forEach foldl flat_map]. rewrite bind_run, analyzeImport_run. cbn [fst snd].
    rewrite IH; cbn [packages stdout].
    + rewrite alter_alter, app_assoc.
      rewrite (importLines_sameUnits _ _ _ _ _ Hsame). do 2 f_equal.
      apply alter_ext. intros p _.
      by rewrite (stepPkg_sameUnits _ _ _ _ _ Hsame).
    + apply sameUnits_alter; [done|]. intros p. apply stepPkg_static.
Qed.

Lemma rangePackages_analyze_run mods pkgs0 order w :
  sameUnits (packages w) pkgs0 →
  rangePackages order (λ k pkg, forEach (Imports pkg) (analyzeImport mods k pkg)) w
  = (tt, {| packages := foldl (λ tbl k, alter (analyzeUnit mods pkgs0) k tbl)
                          (packages w) order;
            stdout := stdout w ++ flat_map (unitLines mods pkgs0) order |}).
Proof.
  unfold rangePackages.
  revert w. induction order as [|k order IH]; intros w Hsame.
  - cbn. rewrite app_nil_r. by destruct w.
  - cbn [forEach foldl flat_map]. rewrite !bind_run. cbn [getPackages fst snd].
    pose proof (sameUnits_lookup _ _ k Hsame) as Hk. unfold unitLines at 1.
    destruct (packages w !! k) as [pkg|] eqn:Hpkg,
             (pkgs0 !! k) as [pkg0|] eqn:Hpkg0; try done.
    + rewrite (imports_run mods pkgs0) by done. cbn [fst snd].
      unfold static in Hk. simplify_eq.
      rewrite IH; cbn [packages stdout].
      * rewrite app_assoc. replace (Path pkg0) with (Path pkg) by congruence.
        replace (Imports pkg0) with (Imports pkg) by congruence.
        do 3 f_equal.
        apply alter_ext. intros p Hp. unfold analyzeUnit. congruence.
      * apply sameUnits_alter; [done|]. intros p. apply foldl_stepPkg_static.
    + cbn [mret M_ret fst snd]. rewrite IH by done.
      by rewrite alter_id', app_nil_l.
Qed.

Lemma analyzePackages_run order config w :
  analyzePackages order config w
  = (tt, {| packages :=
              foldl (λ tbl k,
                  alter (analyzeUnit (modulePrefixesOf (packages w)) (packages w)) k tbl)
                (packages w) order;
            stdout := stdout w
              ++ flat_map (unitLines (modulePrefixesOf (packages w)) (packages w)) order |}).
Proof.
  unfold analyzePackages. rewrite bind_run. cbn [getPackages fst snd].
  by apply rangePackages_analyze_run.
Qed.

Lemma lookup_foldl_alter (f : PackageInfo → PackageInfo) (order : list string)
    (m : gmap string PackageInfo) (k : string) :
  NoDup order →
  foldl (λ tbl j, alter f j tbl) m order !! k
  = if decide (k ∈ order) then f <$> m !! k else m !! k.
Proof.
  intros Hnd. revert m. induction Hnd as [|j order Hj _ IH]; intros m.
  - cbn. case_decide as H; [by apply elem_of_nil in H | done].
  - cbn [foldl]. rewrite IH, lookup_alter.
    destruct (decide (j = k)) as [->|Hne].
    + rewrite decide_False by done. rewrite decide_True by constructor. done.
    + case_decide as Hin.
      * rewrite decide_True by by constructor. done.
      * rewrite decide_False; [done|]. rewrite elem_of_cons. naive_solver.
Qed.

(** The set of module prefixes, whatever the order in which the first
    loop of [analyzePackages] visits the units. *)
Lemma lookup_modulePrefixesOf (pkgs : gmap string PackageInfo) (m : string) (b : bool) :
  modulePrefixesOf pkgs !! m = Some b
  ↔ b = true ∧ ∃ k pkg, pkgs !! k = Some pkg ∧ Module_ pkg = m.
Proof.
  revert m b. unfold modulePrefixesOf.
  apply (map_fold_weak_ind (λ (r : gmap string bool) (tbl : gmap string PackageInfo),
    ∀ m b, r !! m = Some b
           ↔ b = true ∧ ∃ k pkg, tbl !! k = Some pkg ∧ Module_ pkg = m)).
  - intros m b. rewrite lookup_empty. split; [done|].
    intros (_ & k & pkg & Hk & _). by rewrite lookup_empty in Hk.
  - intros i x tbl r Hi IH m b. rewrite lookup_insert. case_decide as Hm.
    + subst m. split.
      * intros [= <-]. split; [done|]. exists i, x. by rewrite lookup_insert_eq.
      * by intros [-> _].
    + rewrite IH. split; intros (-> & k & pkg & Hk & Hmod); (split; [done|]).
      * exists k, pkg. split; [|done]. rewrite lookup_insert_ne; [done|].
        intros ->. congruence.
      * rewrite lookup_insert in Hk. case_decide; simplify_eq. by exists k, pkg.
Qed.

(** The flag computed by the loop over the module prefixes, whatever the
    order in which it visits them. *)
Lemma isExternal_false_iff (imp : string) (modules : list string) :
  isExternal imp modules = false
  ↔ ∃ module, module ∈ modules ∧ Strings.HasPrefix imp module = true.
Proof.
  induction modules as [|m modules IH]; cbn [isExternal].
  - split; [done | intros (m & Hm & _); by apply elem_of_nil in Hm].
  - destruct (Strings.HasPrefix imp m) eqn:Hpre.
    + split; [|done]. intros _. exists m. split; [constructor | done].
    + rewrite IH. split; intros (m' & Hm' & Hp).
      * exists m'. split; [by constructor | done].
      * apply elem_of_cons in Hm' as [->|Hm']; [congruence|]. by exists m'.
Qed.

Lemma isExternal_any_order (imp : string) (order1 order2 : list string) :
  (∀ module, module ∈ order1 ↔ module ∈ order2) →
  isExternal imp order1 = isExternal imp order2.
Proof.
  intros Hsame.
  destruct (isExternal imp order1) eqn:H1, (isExternal imp order2) eqn:H2;
    try done.
  - apply isExternal_false_iff in H2 as (m & Hm & Hpre).
    rewrite <- H1. apply isExternal_false_iff.
    exists m. split; [by apply Hsame | done].
  - apply isExternal_false_iff in H1 as (m & Hm & Hpre).
    rewrite <- H2. symmetry. apply isExternal_false_iff.
    exists m. split; [by apply Hsame | done].
Qed.

Lemma lookup_modulePrefixes_foldl (pkgs : gmap string PackageInfo)
    (order : list string) (acc : gmap string bool) (m : string) (b : bool) :
  (∀ m' b', acc !! m' = Some b' → b' = true) →
  foldl (λ modulePrefixes k,
           match pkgs !! k with
           | Some pkg => <[Module_ pkg := true]> modulePrefixes
           | None => modulePrefixes
           end) acc order !! m = Some b
  ↔ b = true
    ∧ (acc !! m = Some true
       ∨ ∃ k pkg, k ∈ order ∧ pkgs !! k = Some pkg ∧ Module_ pkg = m).
Proof.
  revert acc. induction order as [|k order IH]; intros acc Hacc; cbn [foldl].
  - split.
    + intros H. pose proof (Hacc _ _ H) as ->. split; [done | by left].
    + intros (-> & [H|(k & pkg & Hk & _)]); [done | by apply elem_of_nil in Hk].
  - destruct (pkgs !! k) as [pkg|] eqn:Hpkg.
    + rewrite IH.
      2:{ intros m' b'. rewrite lookup_insert. case_decide; [congruence | apply Hacc]. }
      rewrite lookup_insert. setoid_rewrite elem_of_cons.
      case_decide as Hd; split; intros (-> & Hm); (split; [done|]); naive_solver.
    + rewrite IH by done. setoid_rewrite elem_of_cons.
      split; intros (-> & Hm); (split; [done|]); naive_solver.
Qed.

(** The first loop of [analyzePackages] builds the same table in whatever
    order it visits the units. *)
Lemma modulePrefixesLoop_any_order (pkgs : gmap string PackageInfo)
    (order : list string) :
  visits pkgs order → modulePrefixesLoop pkgs order = modulePrefixesOf pkgs.
Proof.
  intros Hord. apply map_eq. intros m. apply option_eq. intros b.
  unfold modulePrefixesLoop.
  rewrite lookup_modulePrefixes_foldl, lookup_modulePrefixesOf, lookup_empty
    by (intros ??; by rewrite lookup_empty).
  split; intros (-> & H); (split; [done|]).
  - destruct H as [|(k & pkg & _ & Hk & Hm)]; [done | by exists k, pkg].
  - destruct H as (k & pkg & Hk & Hm). right. exists k, pkg.
    split; [|done]. apply (visits_elem_of _ _ _ Hord). by eexists.
Qed.

Lemma isExternal_knownPrefix (pkgs : gmap string PackageInfo) (imp : string) :
  isExternal imp (map_to_list (modulePrefixesOf pkgs)).*1 = false
  ↔ knownPrefix pkgs imp.
Proof.
  rewrite isExternal_false_iff. unfold knownPrefix. split.
  - intros (m & Hm & Hpre). apply list_elem_of_fmap in Hm as ([m' b] & -> & Hm).
    apply elem_of_map_to_list, lookup_modulePrefixesOf in Hm
      as (_ & k & pkg & Hk & Hmod).
    exists k, pkg. cbn in Hpre. by rewrite Hmod.
  - intros (k & pkg & Hk & Hpre). exists (Module_ pkg). split; [|done].
    apply list_elem_of_fmap. exists (Module_ pkg, true). split; [done|].
    apply elem_of_map_to_list, lookup_modulePrefixesOf. split; [done|].
    by exists k, pkg.
Qed.

Lemma isExternal_not_knownPrefix (pkgs : gmap string PackageInfo) (imp : string) :
  isExternal imp (map_to_list (modulePrefixesOf pkgs)).*1 = true
  ↔ ¬ knownPrefix pkgs imp.
Proof.
  rewrite <- isExternal_knownPrefix. by destruct (isExternal _ _).
Qed.

Lemma not_isExternal_knownPrefix (pkgs : gmap string PackageInfo) (imp : string) :
  ¬ isExternal imp (map_to_list (modulePrefixesOf pkgs)).*1 = true
  ↔ knownPrefix pkgs imp.
Proof.
  rewrite <- isExternal_knownPrefix.
  destruct (isExternal _ _); split; congruence.
Qed.

#[local] Instance external_dec mods imp : Decision (external mods imp).
Proof. unfold external. apply _. Defined.

Section Folding.

Variable mods : gmap string bool.
Variable pkgs : gmap string PackageInfo.

Lemma ExternalDeps_stepPkg p imp s :
  ExternalDeps (stepPkg mods pkgs p imp) !! s
  = if decide (s = imp ∧ external mods imp) then Some true else ExternalDeps p !! s.
Proof.
  unfold stepPkg.
  destruct (decide (s = imp ∧ external mods imp)) as [[-> Hext]|Hn].
  - unfold external in Hext. rewrite Hext. cbn. by rewrite lookup_insert_eq.
  - destruct (isExternal imp _) eqn:Hext.
    + cbn. rewrite lookup_insert_ne; [done|]. intros <-. by apply Hn.
    + by destruct (pkgs !! imp).
Qed.

Lemma LayerDeps_stepPkg p imp L :
  is_Some (LayerDeps (stepPkg mods pkgs p imp) !! L)
  ↔ is_Some (LayerDeps p !! L)
    ∨ (¬ external mods imp ∧ ∃ q, pkgs !! imp = Some q ∧ Layer q = L).
Proof.
  unfold stepPkg, external. destruct (isExternal _ _) eqn:Hext.
  - cbn. naive_solver.
  - destruct (pkgs !! imp) as [q|]; cbn; [|naive_solver].
    rewrite lookup_insert_is_Some'. naive_solver.
Qed.

Lemma ExternalDeps_foldl imps p s :
  ExternalDeps (foldl (stepPkg mods pkgs) p imps) !! s
  = if decide (s ∈ imps ∧ external mods s) then Some true else ExternalDeps p !! s.
Proof.
  revert p. induction imps as [|imp imps IH]; intros p; cbn [foldl].
  - rewrite decide_False; [done|]. rewrite elem_of_nil. naive_solver.
  - rewrite IH, ExternalDeps_stepPkg.
    repeat case_decide; try done; exfalso;
      rewrite elem_of_cons in *; naive_solver.
Qed.

Lemma LayerDeps_foldl imps p L :
  is_Some (LayerDeps (foldl (stepPkg mods pkgs) p imps) !! L)
  ↔ is_Some (LayerDeps p !! L)
    ∨ ∃ imp q, imp ∈ imps ∧ ¬ external mods imp ∧ pkgs !! imp = Some q ∧ Layer q = L.
Proof.
  revert p. induction imps as [|imp imps IH]; intros p; cbn [foldl].
  - setoid_rewrite elem_of_nil. naive_solver.
  - rewrite IH, LayerDeps_stepPkg. setoid_rewrite elem_of_cons. naive_solver.
Qed.

End Folding.

(** C5: after graph building, an import of a unit that starts with no
    module prefix of the table is in the unit's external set, verbatim; an
    import that starts with one leaves the external set as it was; and
    the layers added to the unit's layer set are exactly the layers of the
    units found under those of its imports that start with a module
    prefix, so an external import adds no layer.  Each import thus feeds
    at most one of the two sets. *)
Theorem analyzePackages_partition
    (order : list string) (config : Config) (w : World)
    (k : string) (pkg : PackageInfo) :
  visits (packages w) order →
  packages w !! k = Some pkg →
  ∃ pkg',
    packages (analyzePackages order config w).2 !! k = Some pkg'
    ∧ (∀ imp, imp ∈ Imports pkg → ¬ knownPrefix (packages w) imp →
         ExternalDeps pkg' !! imp = Some true)
    ∧ (∀ imp, knownPrefix (packages w) imp →
         ExternalDeps pkg' !! imp = ExternalDeps pkg !! imp)
    ∧ (∀ L, is_Some (LayerDeps pkg' !! L)
            ↔ is_Some (LayerDeps pkg !! L)
              ∨ ∃ imp q, imp ∈ Imports pkg ∧ knownPrefix (packages w) imp
                         ∧ packages w !! imp = Some q ∧ Layer q = L).
Proof.
  intros Hord Hpkg.
  set (mods := modulePrefixesOf (packages w)).
  exists (analyzeUnit mods (packages w) pkg).
  rewrite analyzePackages_run. cbn [snd packages]. fold mods.
  rewrite lookup_foldl_alter by apply Hord.
  rewrite decide_True by (apply (visits_elem_of _ _ _ Hord); by eexists).
  rewrite Hpkg. split; [done|]. unfold analyzeUnit. split; [|split].
  - intros imp Himp Hext. rewrite ExternalDeps_foldl.
    rewrite decide_True; [done|]. split; [done|].
    by apply isExternal_not_knownPrefix.
  - intros imp Hknown. rewrite ExternalDeps_foldl.
    rewrite decide_False; [done|]. intros [_ Hext].
    by apply isExternal_not_knownPrefix in Hext.
  - intros L. rewrite LayerDeps_foldl. unfold mods.
    by setoid_rewrite not_isExternal_knownPrefix.
Qed.

Lemma analyzePackages_partition_witness :
  ∃ pkg',
    packages (analyzePackages ["m/domain/a"; "m/app/b"; "m/domain/c"]
                twoLayers parsedWorld).2 !! "m/domain/a" = Some pkg'
    ∧ ExternalDeps pkg' !! "fmt" = Some true
    ∧ ExternalDeps pkg' !! "m/app/b" = None.
Proof.
  destruct (analyzePackages_partition ["m/domain/a"; "m/app/b"; "m/domain/c"]
              twoLayers parsedWorld "m/domain/a" importingUnit)
    as (pkg' & Hpkg' & Hext & Hint & _).
  - split; compute_done.
  - reflexivity.
  - exists pkg'. split; [exact Hpkg'|]. split.
    + apply Hext; [constructor|].
      apply isExternal_not_knownPrefix. by vm_compute.
    + rewrite Hint; [reflexivity|].
      exists "m/app/b", (freshUnit "m/app/b" "application" ["fmt"]).
      split; reflexivity.
Defined.

(** C6: an import that starts with a module prefix of the table and is
    not the key of any unit changes nothing: the loop body leaves both
    dependency sets of every unit as they are and prints no line. *)
Theorem analyzeImport_undiscovered
    (pkgs0 : gmap string PackageInfo) (k : string) (pkg : PackageInfo)
    (imp : string) (w : World) :
  knownPrefix pkgs0 imp →
  packages w !! imp = None →
  analyzeImport (modulePrefixesOf pkgs0) k pkg imp w = (tt, w).
Proof.
  intros Hknown Hnone. rewrite analyzeImport_run.
  unfold stepPkg, importLines.
  rewrite (proj2 (isExternal_knownPrefix pkgs0 imp) Hknown), Hnone.
  rewrite app_nil_r, alter_id by done. by destruct w.
Qed.

Lemma analyzeImport_undiscovered_witness :
  analyzeImport (modulePrefixesOf (packages parsedWorld)) "m/domain/a"
    importingUnit "m/gone" parsedWorld = (tt, parsedWorld).
Proof.
  apply analyzeImport_undiscovered.
  - exists "m/domain/a", importingUnit. split; reflexivity.
  - by vm_compute.
Defined.

(** ** Command line *)

(** On a command line that never sets a flag, the flag keeps the value
    it had: its default, when parsing starts from the defaults. *)
Lemma flagParse_no_project_root args projectRoot configPath :
  Forall (λ a : Flag * string, a.1 ≠ flag_project_root) args →
  (flagParse args projectRoot configPath).1 = projectRoot.
Proof.
  intros H. revert configPath.
  induction H as [|[[] v] args Hne _ IH]; intros configPath; cbn [flagParse];
    [done | by destruct Hne | apply IH].
Qed.

Lemma flagParse_no_config args projectRoot configPath :
  Forall (λ a : Flag * string, a.1 ≠ flag_config) args →
  (flagParse args projectRoot configPath).2 = configPath.
Proof.
  intros H. revert projectRoot.
  induction H as [|[[] v] args Hne _ IH]; intros projectRoot; cbn [flagParse];
    [done | apply IH | by destruct Hne].
Qed.

(** C7, as the code has it: the program has the two flags [project-root],
    empty by default, and [config], ["config.yaml"] by default.  When the
    value left for one of them after the command line is read is the empty
    string, as the value of [project-root] is when no flag is given, the
    program ends in the fatal usage error with a non-zero exit status,
    before the configuration is read and with nothing analysed or printed.
    A missing [config] flag alone is no error. *)
Theorem main_usage_error
    (Separator : ascii) (Match : string → string → bool)
    (ReadFile : string → string + string)
    (yaml_Unmarshal : string → Config + string)
    (Walk : string → Config → list WalkItem)
    (sched : Schedule) (args : list (Flag * string)) (w : World) :
  (flagParse args EmptyString "config.yaml").1 = EmptyString
  ∨ (flagParse args EmptyString "config.yaml").2 = EmptyString →
  main Separator Match ReadFile yaml_Unmarshal Walk sched args w = (Fatal usage, w)
  ∧ exitStatus (Fatal usage) ≠ 0.
Proof.
  intros Hempty. split; [|discriminate]. unfold main.
  destruct (flagParse args EmptyString "config.yaml") as [projectRoot configPath].
  cbn [fst snd] in Hempty.
  destruct Hempty as [-> | ->]; [done|].
  by rewrite orb_true_r.
Qed.

Lemma main_usage_error_witness :
  ((flagParse [] EmptyString "config.yaml").1 = EmptyString
   ∨ (flagParse [] EmptyString "config.yaml").2 = EmptyString)
  ∧ main "/" Doublestar.Match onlyDefaultConfig parseTwoLayers oneFile
      oneFileSchedule [] start
    = (Fatal usage, start)
  ∧ exitStatus (Fatal usage) ≠ 0.
Proof.
  split; [left; reflexivity|].
  apply main_usage_error. left. reflexivity.
Defined.

(** C7, as the claim states it, fails for the [config] flag: with
    [project-root] alone on the command line the program reads
    ["config.yaml"], analyses the project and returns with status 0. *)
Lemma main_config_flag_optional :
  Forall (λ a : Flag * string, a.1 ≠ flag_config) [(flag_project_root, "proj")]
  ∧ main "/" Doublestar.Match onlyDefaultConfig parseTwoLayers oneFile
      oneFileSchedule [(flag_project_root, "proj")] start
    = (Returned,
       {| packages :=
            <["m/domain/order" :=
                {| Path := "m/domain/order"; Module_ := "m"; Layer := "domain";
                   Imports := ["fmt"]; LayerDeps := ∅;
                   ExternalDeps := <["fmt" := true]> ∅ |}]> ∅;
          stdout := [DebugInLayer "m/domain/order" "domain";
                     ExternalViolation "m/domain/order" "domain" "fmt"] |})
  ∧ exitStatus Returned = 0.
Proof.
  split; [repeat constructor; discriminate|]. split; [|done]. by vm_compute.
Qed.

(** ** A whole run

    The end-to-end scenario of the spec prints one violation line, for
    the edge from [m/domain] to the layer of [m/infra]. *)
Example main_scenario :
  (main "/" Doublestar.Match onlyDefaultConfig (λ _, inl scenarioConfig) scenarioWalk
     scenarioSchedule [(flag_project_root, "proj")] start).1 = Returned
  ∧ stdout (main "/" Doublestar.Match onlyDefaultConfig (λ _, inl scenarioConfig)
              scenarioWalk scenarioSchedule [(flag_project_root, "proj")] start).2
    = [ DebugInLayer "m/domain" "domain";
        DebugInLayer "m/infra" "infrastructure";
        LayerViolation "m/domain" "domain" "infrastructure";
        DebugLayerDeps "m/domain" "domain" "infrastructure" ]
  ∧ render (LayerViolation "m/domain" "domain" "infrastructure")
    = "LAYER VIOLATION: m/domain (domain) -> infrastructure" +:+ newline.
Proof. repeat split; by vm_compute. Qed.

(** * Further properties *)

(** ** Rule evaluation, continued *)

Lemma denied_true_iff rules layer dep :
  denied rules layer dep = true
  ↔ ∃ rule, governs rules layer dep rule ∧ Allow rule = false.
Proof.
  unfold denied. split.
  - destruct (find _ rules) as [rule|] eqn:Hfind; [|done].
    intros Hneg. exists rule. split; [by apply find_governs|].
    by destruct (Allow rule).
  - intros (rule & Hgov & Hallow).
    by rewrite (proj2 (find_governs _ _ _ _) Hgov), Hallow.
Qed.

(** An external violation is printed for exactly the denied external
    edges. *)
Lemma ExternalViolation_printed orderLayerDeps orderExternalDeps config pkgs order p l e :
  ExternalViolation p l e
    ∈ flat_map (checkLines orderLayerDeps orderExternalDeps config pkgs) order
  ↔ denied (DependencyRules config) l e = true
    ∧ ∃ k pkg, k ∈ order ∧ pkgs !! k = Some pkg ∧ Path pkg = p ∧ Layer pkg = l
        ∧ e ∈ orderExternalDeps k ∧ is_Some (ExternalDeps pkg !! e).
Proof.
  rewrite elem_of_flat_map. split.
  - intros (k & Hk & Hin). unfold checkLines in Hin.
    destruct (pkgs !! k) as [pkg|] eqn:Hpkg; [|by apply elem_of_nil in Hin].
    apply elem_of_app in Hin as [Hin|Hin]; apply elem_of_flat_map in Hin
      as (x & Hx & Hin).
    + destruct (LayerDeps pkg !! x); [|by apply elem_of_nil in Hin].
      apply elem_of_app in Hin as [Hin|Hin].
      * destruct (denied _ (Layer pkg) x); [|by apply elem_of_nil in Hin].
        by apply list_elem_of_singleton in Hin.
      * by apply list_elem_of_singleton in Hin.
    + destruct (ExternalDeps pkg !! x) eqn:Hdep; [|by apply elem_of_nil in Hin].
      destruct (denied _ (Layer pkg) x) eqn:Hden; [|by apply elem_of_nil in Hin].
      apply list_elem_of_singleton in Hin. simplify_eq.
      split; [done|]. exists k, pkg. by repeat split.
  - intros (Hden & k & pkg & Hk & Hpkg & <- & <- & He & [b Hb]).
    exists k. split; [done|]. unfold checkLines. rewrite Hpkg.
    apply elem_of_app. right. apply elem_of_flat_map. exists e. split; [done|].
    rewrite Hb, Hden. by apply list_elem_of_singleton.
Qed.

(** The trace line of a layer edge is printed for exactly the layer edges
    the schedule reaches. *)
Lemma DebugLayerDeps_printed orderLayerDeps orderExternalDeps config pkgs order p l L :
  DebugLayerDeps p l L
    ∈ flat_map (checkLines orderLayerDeps orderExternalDeps config pkgs) order
  ↔ ∃ k pkg, k ∈ order ∧ pkgs !! k = Some pkg ∧ Path pkg = p ∧ Layer pkg = l
      ∧ L ∈ orderLayerDeps k ∧ is_Some (LayerDeps pkg !! L).
Proof.
  rewrite elem_of_flat_map. split.
  - intros (k & Hk & Hin). unfold checkLines in Hin.
    destruct (pkgs !! k) as [pkg|] eqn:Hpkg; [|by apply elem_of_nil in Hin].
    apply elem_of_app in Hin as [Hin|Hin]; apply elem_of_flat_map in Hin
      as (x & Hx & Hin).
    + destruct (LayerDeps pkg !! x) eqn:Hdep; [|by apply elem_of_nil in Hin].
      apply elem_of_app in Hin as [Hin|Hin].
      * destruct (denied _ (Layer pkg) x); [|by apply elem_of_nil in Hin].
        by apply list_elem_of_singleton in Hin.
      * apply list_elem_of_singleton in Hin. simplify_eq.
        exists k, pkg. by repeat split.
    + destruct (ExternalDeps pkg !! x); [|by apply elem_of_nil in Hin].
      destruct (denied _ (Layer pkg) x); [|by apply elem_of_nil in Hin].
      by apply list_elem_of_singleton in Hin.
  - intros (k & pkg & Hk & Hpkg & <- & <- & HL & [b Hb]).
    exists k. split; [done|]. unfold checkLines. rewrite Hpkg.
    apply elem_of_app. left. apply elem_of_flat_map. exists L. split; [done|].
    rewrite Hb. apply elem_of_app. right. by apply list_elem_of_singleton.
Qed.

(** X1: for a unit of the table and an external package [ext] of its
    external dependencies, [checkDependencies] prints the external
    violation naming the unit, its layer and [ext] exactly when the first
    rule, in declaration order, whose [From] matches the unit's layer and
    whose [To] matches [ext] has [allow] false. *)
Theorem checkDependencies_external_first_match
    (order : list string) (orderLayerDeps orderExternalDeps : string → list string)
    (config : Config) (w : World) (k : string) (pkg : PackageInfo) (ext : string) :
  visits (packages w) order →
  visits (ExternalDeps pkg) (orderExternalDeps k) →
  packages w !! k = Some pkg →
  is_Some (ExternalDeps pkg !! ext) →
  ∃ out,
    checkDependencies order orderLayerDeps orderExternalDeps config w = (tt, emit out w)
    ∧ (ExternalViolation (Path pkg) (Layer pkg) ext ∈ out
       ↔ ∃ rule, governs (DependencyRules config) (Layer pkg) ext rule
                 ∧ Allow rule = false).
Proof.
  intros Hord Hdeps Hpkg Hext.
  exists (flat_map (checkLines orderLayerDeps orderExternalDeps config (packages w)) order).
  split; [apply checkDependencies_run|].
  rewrite ExternalViolation_printed, <- denied_true_iff.
  split; [by intros [? _]|]. intros Hden. split; [done|].
  exists k, pkg. repeat split; [|done| |done].
  - apply (visits_elem_of _ _ _ Hord). by eexists.
  - by apply (visits_elem_of _ _ _ Hdeps).
Qed.

Lemma checkDependencies_external_first_match_witness :
  ∃ out,
    checkDependencies ["m/domain/a"] (λ _, ["domain"; "application"]) (λ _, ["fmt"])
      twoLayers checkedWorld = (tt, emit out checkedWorld)
    ∧ ExternalViolation "m/domain/a" "domain" "fmt" ∈ out.
Proof.
  destruct (checkDependencies_external_first_match
              ["m/domain/a"] (λ _, ["domain"; "application"]) (λ _, ["fmt"])
              twoLayers checkedWorld "m/domain/a" domainUnit "fmt")
    as (out & Hrun & Hiff).
  - split; compute_done.
  - split; compute_done.
  - reflexivity.
  - by exists true.
  - exists out. split; [exact Hrun|]. apply Hiff.
    exists {| From := "domain"; To := "*"; Allow := false |}. split; [|done].
    exists [ {| From := "domain"; To := "domain"; Allow := true |} ], [].
    split; [done|]. split; [by repeat constructor | done].
Defined.

(** X2: under a schedule that visits every table as Go may,
    [checkDependencies] prints the trace line [[debug] layer deps] for
    every layer edge of every unit, whatever the verdict on the edge, and
    for nothing else: never for an external dependency. *)
Theorem checkDependencies_traces_layer_edges
    (order : list string) (orderLayerDeps orderExternalDeps : string → list string)
    (config : Config) (w : World) :
  visits (packages w) order →
  validCheck w orderLayerDeps orderExternalDeps →
  ∃ out,
    checkDependencies order orderLayerDeps orderExternalDeps config w = (tt, emit out w)
    ∧ ∀ p l L,
        DebugLayerDeps p l L ∈ out
        ↔ ∃ k pkg, packages w !! k = Some pkg ∧ Path pkg = p ∧ Layer pkg = l
                   ∧ is_Some (LayerDeps pkg !! L).
Proof.
  intros Hord Hvalid.
  exists (flat_map (checkLines orderLayerDeps orderExternalDeps config (packages w)) order).
  split; [apply checkDependencies_run|].
  intros p l L. rewrite DebugLayerDeps_printed. split.
  - intros (k & pkg & _ & Hpkg & Hp & Hl & _ & HL). by exists k, pkg.
  - intros (k & pkg & Hpkg & Hp & Hl & HL). exists k, pkg.
    destruct (Hvalid k pkg Hpkg) as [HvL _]. repeat split; try done.
    + apply (visits_elem_of _ _ _ Hord). by eexists.
    + by apply (visits_elem_of _ _ _ HvL).
Qed.

Lemma validCheck_checkedWorld :
  validCheck checkedWorld (λ _, ["domain"; "application"]) (λ _, ["fmt"]).
Proof.
  intros k pkg Hk. cbn in Hk. rewrite lookup_insert in Hk.
  case_decide; [|by rewrite lookup_empty in Hk]. simplify_eq.
  split; split; compute_done.
Qed.

Lemma checkDependencies_traces_layer_edges_witness :
  ∃ out,
    checkDependencies ["m/domain/a"] (λ _, ["domain"; "application"]) (λ _, ["fmt"])
      twoLayers checkedWorld = (tt, emit out checkedWorld)
    ∧ DebugLayerDeps "m/domain/a" "domain" "domain" ∈ out
    ∧ DebugLayerDeps "m/domain/a" "domain" "fmt" ∉ out.
Proof.
  destruct (checkDependencies_traces_layer_edges
              ["m/domain/a"] (λ _, ["domain"; "application"]) (λ _, ["fmt"])
              twoLayers checkedWorld)
    as (out & Hrun & Hiff).
  - split; compute_done.
  - apply validCheck_checkedWorld.
  - exists out. split; [exact Hrun|]. split.
    + apply Hiff. exists "m/domain/a", domainUnit. repeat split. by exists true.
    + rewrite Hiff. intros (k & pkg & Hk & _ & _ & [b Hb]).
      cbn in Hk. rewrite lookup_insert in Hk.
      case_decide; [|by rewrite lookup_empty in Hk]. simplify_eq.
Defined.

Lemma visits_Permutation {V} (m : gmap string V) (order1 order2 : list string) :
  visits m order1 → visits m order2 → order1 ≡ₚ order2.
Proof.
  intros H1 H2. apply NoDup_Permutation; [apply H1 | apply H2 |].
  intros k. by rewrite (visits_elem_of _ _ _ H1), (visits_elem_of _ _ _ H2).
Qed.

Lemma flat_map_Permutation_ext {A B} (f g : A → list B) (l : list A) :
  (∀ x, f x ≡ₚ g x) → flat_map f l ≡ₚ flat_map g l.
Proof.
  intros Hfg. induction l as [|x l IH]; [done|].
  cbn [flat_map]. by rewrite Hfg, IH.
Qed.

Lemma checkLines_Permutation oLD1 oED1 oLD2 oED2 config w k :
  validCheck w oLD1 oED1 → validCheck w oLD2 oED2 →
  checkLines oLD1 oED1 config (packages w) k
  ≡ₚ checkLines oLD2 oED2 config (packages w) k.
Proof.
  intros H1 H2. unfold checkLines.
  destruct (packages w !! k) as [pkg|] eqn:Hpkg; [|done].
  destruct (H1 k pkg Hpkg) as [HL1 HE1], (H2 k pkg Hpkg) as [HL2 HE2].
  apply Permutation_app; apply Permutation_flat_map; by eapply visits_Permutation.
Qed.

(** X3: the lines [checkDependencies] prints are the same, up to their
    order, under any two schedules Go may follow: the order in which a
    map is visited moves lines and neither adds nor removes one. *)
Theorem checkDependencies_schedule_permutes
    (order1 order2 : list string)
    (oLD1 oED1 oLD2 oED2 : string → list string) (config : Config) (w : World) :
  visits (packages w) order1 → visits (packages w) order2 →
  validCheck w oLD1 oED1 → validCheck w oLD2 oED2 →
  ∃ out1 out2,
    checkDependencies order1 oLD1 oED1 config w = (tt, emit out1 w)
    ∧ checkDependencies order2 oLD2 oED2 config w = (tt, emit out2 w)
    ∧ out1 ≡ₚ out2.
Proof.
  intros Ho1 Ho2 Hv1 Hv2.
  exists (flat_map (checkLines oLD1 oED1 config (packages w)) order1),
         (flat_map (checkLines oLD2 oED2 config (packages w)) order2).
  split; [apply checkDependencies_run|]. split; [apply checkDependencies_run|].
  etrans.
  - apply Permutation_flat_map. by eapply visits_Permutation.
  - apply flat_map_Permutation_ext. intros k. by apply checkLines_Permutation.
Qed.

Lemma validCheck_checkedWorld_swapped :
  validCheck checkedWorld (λ _, ["application"; "domain"]) (λ _, ["fmt"]).
Proof.
  intros k pkg Hk. cbn in Hk. rewrite lookup_insert in Hk.
  case_decide; [|by rewrite lookup_empty in Hk]. simplify_eq.
  split; split; compute_done.
Qed.

Lemma checkDependencies_schedule_permutes_witness :
  ∃ out1 out2,
    checkDependencies ["m/domain/a"] (λ _, ["domain"; "application"]) (λ _, ["fmt"])
      twoLayers checkedWorld = (tt, emit out1 checkedWorld)
    ∧ checkDependencies ["m/domain/a"] (λ _, ["application"; "domain"]) (λ _, ["fmt"])
        twoLayers checkedWorld = (tt, emit out2 checkedWorld)
    ∧ out1 ≡ₚ out2.
Proof.
  apply checkDependencies_schedule_permutes.
  - split; compute_done.
  - split; compute_done.
  - apply validCheck_checkedWorld.
  - apply validCheck_checkedWorld_swapped.
Defined.

Lemma matchPattern_star (c : string) : matchPattern c "*" = true.
Proof. apply (matchPattern_wildcard c EmptyString EmptyString I). by exists c. Qed.

Lemma rangeRules_first_applies pre rule post layer dep violation w :
  applies rule layer dep = true →
  rangeRules (pre ++ rule :: post) layer dep violation w
  = rangeRules (pre ++ [rule]) layer dep violation w.
Proof.
  intros Hrule. induction pre as [|r pre IH]; cbn [app rangeRules].
  - fold (applies rule layer dep). by rewrite Hrule.
  - fold (applies r layer dep). by destruct (applies r layer dep).
Qed.

(** X4: a rule whose [From] and [To] are both ["*"] ends every scan that
    reaches it: for every edge, layer or external, the rules declared
    after it are never consulted and can be dropped without changing what
    is printed. *)
Theorem rangeRules_after_catch_all
    (pre post : list DependencyRule) (allow : bool)
    (layer dep : string) (violation : Line) (w : World) :
  rangeRules (pre ++ {| From := "*"; To := "*"; Allow := allow |} :: post)
    layer dep violation w
  = rangeRules (pre ++ [ {| From := "*"; To := "*"; Allow := allow |} ])
      layer dep violation w.
Proof.
  apply rangeRules_first_applies. unfold applies. cbn [From To].
  by rewrite !matchPattern_star.
Qed.

(** X5: every pattern matches itself as a candidate, wildcard or not. *)
Theorem matchPattern_refl (p : string) : matchPattern p p = true.
Proof.
  destruct (first_star_decompose p) as [Hfree | (a & b & Ha & ->)].
  - by apply matchPattern_literal.
  - apply matchPattern_wildcard; [done|]. by exists (String "*" b).
Qed.

Lemma matchPattern_eqb (c p : string) :
  Strings.Contains p "*" = false → matchPattern c p = String.eqb c p.
Proof. intros H. unfold matchPattern. by rewrite H. Qed.

(** X6: under the rules of the shipped [config.yaml], a unit of layer
    [domain] is reported for every dependency, layer or external package,
    other than [domain] itself, so the later rule from [domain] to
    [mycompany.org/xx/moduleB] is never consulted; and a dependency on
    [cloud.google.com/go/firestore] is reported for every layer except
    [infrastructure]. *)
Theorem shippedRules_verdicts (layer dep : string) (violation : Line) (w : World) :
  rangeRules shippedRules "domain" dep violation w
  = (tt, emit (if String.eqb dep "domain" then [] else [violation]) w)
  ∧ rangeRules shippedRules layer "cloud.google.com/go/firestore" violation w
    = (tt, emit (if String.eqb layer "infrastructure" then [] else [violation]) w).
Proof.
  split.
  - rewrite rangeRules_run. f_equal. f_equal.
    unfold denied, shippedRules. cbn [find]. unfold applies. cbn [From To Allow].
    rewrite (matchPattern_eqb "domain" "unknown") by reflexivity.
    rewrite (matchPattern_eqb "domain" "domain") by reflexivity.
    rewrite (matchPattern_eqb dep "domain") by reflexivity.
    rewrite matchPattern_star.
    change (String.eqb "domain" "unknown") with false.
    change (String.eqb "domain" "domain") with true.
    cbn [andb]. by destruct (String.eqb dep "domain").
  - rewrite rangeRules_run. f_equal. f_equal.
    unfold denied, shippedRules. cbn [find]. unfold applies. cbn [From To Allow].
    rewrite !(matchPattern_eqb layer) by reflexivity.
    rewrite !(matchPattern_eqb "cloud.google.com/go/firestore") by reflexivity.
    rewrite !matchPattern_star.
    change (String.eqb "cloud.google.com/go/firestore" "unknown") with false.
    change (String.eqb "cloud.google.com/go/firestore" "domain") with false.
    change (String.eqb "cloud.google.com/go/firestore" "infrastructure") with false.
    change (String.eqb "cloud.google.com/go/firestore" "mycompany.org/xx/moduleA")
      with false.
    change (String.eqb "cloud.google.com/go/firestore" "mycompany.org/xx/moduleB")
      with false.
    change (String.eqb "cloud.google.com/go/firestore" "cloud.google.com/go/firestore")
      with true.
    rewrite !andb_false_r, !andb_true_r. cbn [andb].
    destruct (String.eqb layer "domain") eqn:Hd.
    + apply String.eqb_eq in Hd as ->. reflexivity.
    + by destruct (String.eqb layer "infrastructure").
Qed.

(** ** Import graph, continued *)

Lemma analyzePackages_lookup order config w k :
  visits (packages w) order →
  packages (analyzePackages order config w).2 !! k
  = analyzeUnit (modulePrefixesOf (packages w)) (packages w) <$> packages w !! k.
Proof.
  intros Hord. rewrite analyzePackages_run. cbn [snd packages].
  rewrite lookup_foldl_alter by apply Hord.
  case_decide as Hk; [done|].
  destruct (packages w !! k) eqn:Hpkg; [|done].
  destruct Hk. apply (visits_elem_of _ _ _ Hord). by eexists.
Qed.

Lemma analyzePackages_stdout order config w :
  stdout (analyzePackages order config w).2
  = stdout w ++ flat_map (unitLines (modulePrefixesOf (packages w)) (packages w)) order.
Proof. by rewrite analyzePackages_run. Qed.

Lemma sameUnits_foldl_alter (f : PackageInfo → PackageInfo) order a b :
  (∀ p, static (f p) = static p) → sameUnits a b →
  sameUnits (foldl (λ tbl k, alter f k tbl) a order) b.
Proof.
  intros Hf. revert a. induction order as [|k order IH]; intros a Hab; [done|].
  cbn [foldl]. apply IH. by apply sameUnits_alter.
Qed.

(** X7: graph building, under any visiting order, adds no unit, removes
    none, and leaves the path, module, layer and import list of every unit
    as they were: it writes the two dependency tables only. *)
Theorem analyzePackages_frame (order : list string) (config : Config) (w : World) (k : string) :
  (λ p, (Path p, Module_ p, Layer p, Imports p))
    <$> packages (analyzePackages order config w).2 !! k
  = (λ p, (Path p, Module_ p, Layer p, Imports p)) <$> packages w !! k.
Proof.
  rewrite analyzePackages_run. cbn [snd packages].
  apply (sameUnits_foldl_alter _ order (packages w) (packages w)); [|done].
  intros p. apply foldl_stepPkg_static.
Qed.

(** X8: the table graph building leaves does not depend on the order in
    which Go visits the units, and the warnings it prints are the same up
    to their order. *)
Theorem analyzePackages_order_irrelevant
    (order1 order2 : list string) (config : Config) (w : World) :
  visits (packages w) order1 → visits (packages w) order2 →
  packages (analyzePackages order1 config w).2
  = packages (analyzePackages order2 config w).2
  ∧ stdout (analyzePackages order1 config w).2
    ≡ₚ stdout (analyzePackages order2 config w).2.
Proof.
  intros H1 H2. split.
  - apply map_eq. intros k. by rewrite !analyzePackages_lookup.
  - rewrite !analyzePackages_stdout. apply Permutation_app_head.
    apply Permutation_flat_map. by eapply visits_Permutation.
Qed.

Lemma analyzePackages_order_irrelevant_witness :
  packages (analyzePackages ["m/domain/a"; "m/app/b"; "m/domain/c"]
              twoLayers parsedWorld).2
  = packages (analyzePackages ["m/domain/c"; "m/domain/a"; "m/app/b"]
                twoLayers parsedWorld).2
  ∧ stdout (analyzePackages ["m/domain/a"; "m/app/b"; "m/domain/c"]
              twoLayers parsedWorld).2
    ≡ₚ stdout (analyzePackages ["m/domain/c"; "m/domain/a"; "m/app/b"]
                 twoLayers parsedWorld).2.
Proof.
  apply analyzePackages_order_irrelevant; split; compute_done.
Defined.

Lemma elem_of_importLines mods pkgs path imp line :
  line ∈ importLines mods pkgs path imp
  ↔ ∃ impPkg, isExternal imp (map_to_list mods).*1 = false
              ∧ pkgs !! imp = Some impPkg ∧ Layer impPkg = "unknown"
              ∧ line = WarnImportsUnknown path (Path impPkg).
Proof.
  unfold importLines. destruct (isExternal _ _).
  - rewrite elem_of_nil. naive_solver.
  - destruct (pkgs !! imp) as [impPkg|]; [|rewrite elem_of_nil; naive_solver].
    destruct (String.eqb (Layer impPkg) layerUnknown) eqn:Hl.
    + apply String.eqb_eq in Hl. rewrite list_elem_of_singleton. naive_solver.
    + apply String.eqb_neq in Hl. rewrite elem_of_nil. naive_solver.
Qed.

(** X9: graph building prints one kind of line only, the warning that a
    unit imports a unit of layer [unknown]; it prints it for exactly the
    imports that start with a module prefix and are the key of a unit
    whose layer is [unknown], naming the importer and the imported unit. *)
Theorem analyzePackages_warnings
    (order : list string) (config : Config) (w : World) :
  visits (packages w) order →
  ∃ out,
    stdout (analyzePackages order config w).2 = stdout w ++ out
    ∧ ∀ line,
        line ∈ out
        ↔ ∃ k pkg imp impPkg,
            packages w !! k = Some pkg ∧ imp ∈ Imports pkg
            ∧ knownPrefix (packages w) imp
            ∧ packages w !! imp = Some impPkg ∧ Layer impPkg = "unknown"
            ∧ line = WarnImportsUnknown (Path pkg) (Path impPkg).
Proof.
  intros Hord. eexists. split; [apply analyzePackages_stdout|].
  intros line. rewrite elem_of_flat_map. unfold unitLines. split.
  - intros (k & Hk & Hline).
    destruct (packages w !! k) as [pkg|] eqn:Hpkg; [|by apply elem_of_nil in Hline].
    apply elem_of_flat_map in Hline as (imp & Himp & Hline).
    apply elem_of_importLines in Hline as (impPkg & Hext & Hq & Hl & ->).
    exists k, pkg, imp, impPkg. repeat split; try done.
    by apply isExternal_knownPrefix.
  - intros (k & pkg & imp & impPkg & Hpkg & Himp & Hknown & Hq & Hl & ->).
    exists k. split; [apply (visits_elem_of _ _ _ Hord); by eexists|].
    rewrite Hpkg. apply elem_of_flat_map. exists imp. split; [done|].
    apply elem_of_importLines. exists impPkg. repeat split; try done.
    by apply isExternal_knownPrefix.
Qed.

Lemma analyzePackages_warnings_witness :
  ∃ out,
    stdout (analyzePackages ["m/misc"; "m/domain/a"] twoLayers warnWorld).2
    = stdout warnWorld ++ out
    ∧ WarnImportsUnknown "m/domain/a" "m/misc" ∈ out.
Proof.
  destruct (analyzePackages_warnings ["m/misc"; "m/domain/a"] twoLayers warnWorld)
    as (out & Hout & Hiff).
  - split; compute_done.
  - exists out. split; [exact Hout|]. apply Hiff.
    exists "m/domain/a", (freshUnit "m/domain/a" "domain" ["fmt"; "m/misc"]),
           "m/misc", (freshUnit "m/misc" "unknown" []).
    repeat split; try reflexivity.
    + apply elem_of_cons. right. constructor.
    + exists "m/misc", (freshUnit "m/misc" "unknown" []). split; reflexivity.
Defined.

Lemma PackageInfo_eq (p q : PackageInfo) :
  static p = static q → LayerDeps p = LayerDeps q → ExternalDeps p = ExternalDeps q →
  p = q.
Proof.
  destruct p, q. unfold static. cbn. intros [= -> -> -> ->] -> ->. done.
Qed.

Lemma LayerDeps_stepPkg_lookup mods pkgs p imp L :
  LayerDeps (stepPkg mods pkgs p imp) !! L
  = if contributes mods pkgs L imp then Some true else LayerDeps p !! L.
Proof.
  unfold stepPkg, contributes. destruct (isExternal _ _); [done|]. cbn [negb andb].
  destruct (pkgs !! imp) as [impPkg|]; [|done]. cbn [addLayerDep LayerDeps].
  rewrite lookup_insert. case_decide as Heq.
  - by rewrite bool_decide_eq_true_2.
  - by rewrite bool_decide_eq_false_2.
Qed.

Lemma LayerDeps_foldl_lookup mods pkgs imps p L :
  LayerDeps (foldl (stepPkg mods pkgs) p imps) !! L
  = if existsb (contributes mods pkgs L) imps then Some true else LayerDeps p !! L.
Proof.
  revert p. induction imps as [|imp imps IH]; intros p; cbn [foldl existsb]; [done|].
  rewrite IH, LayerDeps_stepPkg_lookup.
  by destruct (contributes mods pkgs L imp), (existsb _ imps).
Qed.

Lemma existsb_same_elements {A} (f : A → bool) (l1 l2 : list A) :
  (∀ x, x ∈ l1 ↔ x ∈ l2) → existsb f l1 = existsb f l2.
Proof.
  intros Hsame.
  destruct (existsb f l1) eqn:H1, (existsb f l2) eqn:H2; try done.
  - apply existsb_exists in H1 as (x & Hx & Hfx).
    rewrite <- H2. symmetry. apply existsb_exists. exists x. split; [|done].
    by apply list_elem_of_In, Hsame, list_elem_of_In.
  - apply existsb_exists in H2 as (x & Hx & Hfx).
    rewrite <- H1. apply existsb_exists. exists x. split; [|done].
    by apply list_elem_of_In, Hsame, list_elem_of_In.
Qed.

Lemma stepPkg_sameLayers mods a b p imp :
  (∀ k, Layer <$> a !! k = Layer <$> b !! k) →
  stepPkg mods a p imp = stepPkg mods b p imp.
Proof.
  intros H. unfold stepPkg. destruct (isExternal _ _); [done|].
  specialize (H imp). destruct (a !! imp), (b !! imp); simplify_eq/=; congruence.
Qed.

Lemma foldl_stepPkg_sameLayers mods a b imps p :
  (∀ k, Layer <$> a !! k = Layer <$> b !! k) →
  foldl (stepPkg mods a) p imps = foldl (stepPkg mods b) p imps.
Proof.
  intros H. revert p. induction imps as [|imp imps IH]; intros p; [done|].
  cbn [foldl]. by rewrite IH, (stepPkg_sameLayers mods a b).
Qed.

Lemma modulePrefixesOf_sameModules (a b : gmap string PackageInfo) :
  (∀ k, Module_ <$> a !! k = Module_ <$> b !! k) →
  modulePrefixesOf a = modulePrefixesOf b.
Proof.
  intros H. apply map_eq. intros m. apply option_eq. intros v.
  rewrite !lookup_modulePrefixesOf.
  split; intros (-> & k & pkg & Hk & Hm); (split; [done|]); specialize (H k);
    rewrite Hk in H; cbn in H.
  - destruct (b !! k) as [q|] eqn:Hq; [|done]. exists k, q. cbn in H.
    split; [done | congruence].
  - destruct (a !! k) as [q|] eqn:Hq; [|done]. exists k, q. cbn in H.
    split; [done | congruence].
Qed.

(** X10: the dependency tables graph building leaves depend on the import
    list of a unit as a set only: rewriting every import list into one
    with the same members, in another order or with repetitions (the same
    package imported by several files of the unit), gives the same layer
    and external dependencies for every unit. *)
Theorem analyzePackages_import_set
    (shuffle : list string → list string)
    (order : list string) (config : Config) (w : World) (k : string) :
  visits (packages w) order →
  (∀ l imp, imp ∈ shuffle l ↔ imp ∈ l) →
  (λ p, (LayerDeps p, ExternalDeps p))
    <$> packages (analyzePackages order config
                    {| packages := withImports shuffle <$> packages w;
                       stdout := stdout w |}).2 !! k
  = (λ p, (LayerDeps p, ExternalDeps p))
      <$> packages (analyzePackages order config w).2 !! k.
Proof.
  intros Hord Hshuffle.
  assert (Hord' : visits (withImports shuffle <$> packages w) order).
  { destruct Hord as [Hnd Hdom]. split; [done|]. by rewrite dom_fmap_L. }
  rewrite (analyzePackages_lookup _ _ _ _ Hord).
  rewrite (analyzePackages_lookup order config
             {| packages := withImports shuffle <$> packages w; stdout := stdout w |} k Hord').
  cbn [packages].
  rewrite (modulePrefixesOf_sameModules (withImports shuffle <$> packages w) (packages w)).
  2:{ intros j. rewrite lookup_fmap. by destruct (packages w !! j). }
  rewrite lookup_fmap. destruct (packages w !! k) as [p|]; [|done]. cbn.
  f_equal. unfold analyzeUnit. cbn [withImports Imports].
  rewrite (foldl_stepPkg_sameLayers _ (withImports shuffle <$> packages w) (packages w)).
  2:{ intros j. rewrite lookup_fmap. by destruct (packages w !! j). }
  f_equal.
  - apply map_eq. intros L. rewrite !LayerDeps_foldl_lookup. cbn [withImports LayerDeps].
    by rewrite (existsb_same_elements _ (shuffle (Imports p)) (Imports p)).
  - apply map_eq. intros s. rewrite !ExternalDeps_foldl. cbn [withImports ExternalDeps].
    apply decide_ext. by rewrite Hshuffle.
Qed.

Lemma analyzePackages_import_set_witness :
  (λ p, (LayerDeps p, ExternalDeps p))
    <$> packages (analyzePackages ["m/domain/a"; "m/app/b"; "m/domain/c"] twoLayers
                    {| packages := withImports (λ l, reverse l ++ l) <$> packages parsedWorld;
                       stdout := stdout parsedWorld |}).2 !! "m/domain/a"
  = (λ p, (LayerDeps p, ExternalDeps p))
      <$> packages (analyzePackages ["m/domain/a"; "m/app/b"; "m/domain/c"] twoLayers
                      parsedWorld).2 !! "m/domain/a".
Proof.
  apply (analyzePackages_import_set (λ l, reverse l ++ l)).
  - split; compute_done.
  - intros l imp. rewrite elem_of_app, elem_of_reverse. naive_solver.
Defined.

Lemma analyzeUnit_idempotent mods pkgs p :
  analyzeUnit mods pkgs (analyzeUnit mods pkgs p) = analyzeUnit mods pkgs p.
Proof.
  assert (Hst : static (analyzeUnit mods pkgs p) = static p)
    by apply foldl_stepPkg_static.
  assert (Himps : Imports (analyzeUnit mods pkgs p) = Imports p)
    by (unfold static in Hst; congruence).
  apply PackageInfo_eq.
  - unfold analyzeUnit at 1. by rewrite foldl_stepPkg_static.
  - apply map_eq. intros L. unfold analyzeUnit at 1. rewrite Himps.
    rewrite LayerDeps_foldl_lookup. unfold analyzeUnit.
    rewrite LayerDeps_foldl_lookup. by destruct (existsb _ _).
  - apply map_eq. intros s. unfold analyzeUnit at 1. rewrite Himps.
    rewrite ExternalDeps_foldl. unfold analyzeUnit.
    rewrite ExternalDeps_foldl. by case_decide.
Qed.

(** X11: graph building is idempotent on the table: run again on the
    table it has left, it changes no dependency set of any unit. *)
Theorem analyzePackages_idempotent (order : list string) (config : Config) (w : World) :
  visits (packages w) order →
  packages (analyzePackages order config (analyzePackages order config w).2).2
  = packages (analyzePackages order config w).2.
Proof.
  intros Hord.
  set (w1 := (analyzePackages order config w).2).
  assert (Hsame : sameUnits (packages w1) (packages w)).
  { unfold w1. rewrite analyzePackages_run. cbn [snd packages].
    apply sameUnits_foldl_alter; [|done]. intros p. apply foldl_stepPkg_static. }
  assert (Hord1 : visits (packages w1) order).
  { destruct Hord as [Hnd Hdom]. split; [done|]. rewrite Hdom.
    apply set_eq. intros j. rewrite !elem_of_dom.
    pose proof (sameUnits_lookup _ _ j Hsame) as Hj.
    destruct (packages w1 !! j), (packages w !! j); try done;
      split; intros [? ?]; done. }
  apply map_eq. intros k. rewrite (analyzePackages_lookup _ _ _ _ Hord1).
  rewrite (modulePrefixesOf_sameModules (packages w1) (packages w)).
  2:{ intros j. pose proof (sameUnits_lookup _ _ j Hsame) as Hj.
      destruct (packages w1 !! j), (packages w !! j); try done.
      unfold static in Hj. cbn. congruence. }
  unfold w1 at 2 3. rewrite (analyzePackages_lookup _ _ _ _ Hord).
  destruct (packages w !! k) as [p|]; [|done]. cbn. f_equal.
  unfold analyzeUnit at 1.
  rewrite (foldl_stepPkg_sameLayers _ (packages w1) (packages w)).
  2:{ intros j. pose proof (sameUnits_lookup _ _ j Hsame) as Hj.
      destruct (packages w1 !! j), (packages w !! j); try done.
      unfold static in Hj. cbn. congruence. }
  apply analyzeUnit_idempotent.
Qed.

Lemma analyzePackages_idempotent_witness :
  packages (analyzePackages ["m/domain/a"; "m/app/b"; "m/domain/c"] twoLayers
              (analyzePackages ["m/domain/a"; "m/app/b"; "m/domain/c"] twoLayers
                 parsedWorld).2).2
  = packages (analyzePackages ["m/domain/a"; "m/app/b"; "m/domain/c"] twoLayers
                parsedWorld).2.
Proof. apply analyzePackages_idempotent. split; compute_done. Defined.

(** ** Layer classification, continued *)

Lemma visits_head_first {V} (m : gmap string V) (k : string) :
  is_Some (m !! k) → visits m (k :: elements (dom m ∖ {[k]})).
Proof.
  intros Hk. split.
  - constructor; [|apply NoDup_elements].
    rewrite elem_of_elements. set_solver.
  - cbn [list_to_set foldr]. rewrite list_to_set_elements_L.
    apply elem_of_dom in Hk. apply set_eq. intros j.
    rewrite elem_of_union, elem_of_singleton, elem_of_difference, elem_of_singleton.
    destruct (decide (j = k)) as [->|]; naive_solver.
Qed.

(** X12: when two different layers both contain the unit's path, the
    classification depends on the order in which Go visits the layers:
    some order Go may choose yields the one layer and some order the
    other. *)
Theorem getLayerForPackage_order_dependent
    (Separator : ascii) (Match : string → string → bool)
    (pkgPath relPath : string) (config : Config) (w : World)
    (l1 l2 : string) (lc1 lc2 : LayerConfig) :
  Layers config !! l1 = Some lc1 → Layers config !! l2 = Some lc2 →
  inLayer Match lc1 (Filepath.ToSlash Separator pkgPath) →
  inLayer Match lc2 (Filepath.ToSlash Separator pkgPath) →
  ∃ order1 order2,
    visits (Layers config) order1 ∧ visits (Layers config) order2
    ∧ (getLayerForPackage Separator Match order1 pkgPath relPath config w).1 = l1
    ∧ (getLayerForPackage Separator Match order2 pkgPath relPath config w).1 = l2.
Proof.
  intros H1 H2 Hin1 Hin2.
  exists (l1 :: elements (dom (Layers config) ∖ {[l1]})),
         (l2 :: elements (dom (Layers config) ∖ {[l2]})).
  split; [by apply visits_head_first|]. split; [by apply visits_head_first|].
  split.
  - rewrite (getLayerForPackage_found _ _ _ _ _ _ _ l1); [done|].
    apply (rangeLayers_first Match (Layers config) [] l1 _ lc1); [constructor|done..].
  - rewrite (getLayerForPackage_found _ _ _ _ _ _ _ l2); [done|].
    apply (rangeLayers_first Match (Layers config) [] l2 _ lc2); [constructor|done..].
Qed.

Lemma getLayerForPackage_order_dependent_witness :
  ∃ order1 order2,
    visits (Layers twoLayers) order1 ∧ visits (Layers twoLayers) order2
    ∧ (getLayerForPackage "/" Doublestar.Match order1
         "m/app/domain" "app/domain" twoLayers start).1 = "domain"
    ∧ (getLayerForPackage "/" Doublestar.Match order2
         "m/app/domain" "app/domain" twoLayers start).1 = "application".
Proof.
  apply (getLayerForPackage_order_dependent "/" Doublestar.Match
           "m/app/domain" "app/domain" twoLayers start "domain" "application"
           {| Paths := ["**/domain/**"; "**/domain/**/service/**"] |}
           {| Paths := ["**/app/**"; "**/service/**"] |}).
  - reflexivity.
  - reflexivity.
  - exists "**/domain/**". split; [constructor | reflexivity].
  - exists "**/app/**". split; [constructor | reflexivity].
Defined.

(** X13: the classifier never writes the table of units and prints at
    most one line.  Its answer is a visited layer one of whose patterns
    matches the unit's path, with the debug line for it; or, when no
    visited layer matches, [root] with no line for the relative path
    ["."] and [unknown] with the warning otherwise. *)
Theorem getLayerForPackage_sound
    (Separator : ascii) (Match : string → string → bool)
    (order : list string) (pkgPath relPath : string) (config : Config) (w : World) :
  let p := Filepath.ToSlash Separator pkgPath in
  let r := getLayerForPackage Separator Match order pkgPath relPath config w in
  packages r.2 = packages w
  ∧ ((∃ layerConfig, r.1 ∈ order ∧ Layers config !! r.1 = Some layerConfig
        ∧ inLayer Match layerConfig p
        ∧ stdout r.2 = stdout w ++ [DebugInLayer p r.1])
     ∨ (unmatched Match (Layers config) order p ∧ relPath = "."
        ∧ r.1 = "root" ∧ stdout r.2 = stdout w)
     ∨ (unmatched Match (Layers config) order p ∧ relPath ≠ "."
        ∧ r.1 = "unknown" ∧ stdout r.2 = stdout w ++ [WarnUnknownLayer p])).
Proof.
  intros p r. subst r.
  destruct (first_layer_cases Match (Layers config) order p)
    as [Hnone | (pre & layer & post & lc & -> & Hpre & Hl & Hin)].
  - rewrite (getLayerForPackage_fallback _ _ _ _ _ _ _
               (rangeLayers_unmatched _ _ _ _ w Hnone)).
    destruct (String.eqb relPath ".") eqn:Hrel.
    + apply String.eqb_eq in Hrel. split; [done|]. right. left. by repeat split.
    + apply String.eqb_neq in Hrel. split; [done|]. right. right. by repeat split.
  - rewrite (getLayerForPackage_found _ _ _ _ _ _ _ layer)
      by by apply (rangeLayers_first Match _ _ _ _ lc).
    split; [done|]. left. exists lc. repeat split; try done.
    apply elem_of_app. right. constructor.
Qed.

(** ** Project walk *)

Section Parsing.

Variable Separator : ascii.
Variable Match : string → string → bool.

Lemma getLayerForPackage_emit order pkgPath relPath config w :
  getLayerForPackage Separator Match order pkgPath relPath config w
  = ((getLayerForPackage Separator Match order pkgPath relPath config start).1,
     emit (stdout (getLayerForPackage Separator Match order pkgPath relPath config start).2) w).
Proof.
  destruct (first_layer_cases Match (Layers config) order
              (Filepath.ToSlash Separator pkgPath))
    as [Hnone | (pre & layer & post & lc & -> & Hpre & Hl & Hin)].
  - rewrite !(getLayerForPackage_fallback Separator Match _ _ _ _ _
                (rangeLayers_unmatched _ _ _ _ _ Hnone)).
    destruct (String.eqb relPath "."); cbn; [by rewrite emit_nil | done].
  - by rewrite !(getLayerForPackage_found Separator Match _ _ _ _ _ layer)
      by by apply (rangeLayers_first Match _ _ _ _ lc).
Qed.

Lemma forEach_appendImport k imps w :
  forEach imps (λ impPath, update k (appendImport impPath)) w
  = (tt, {| packages := alter (appendImports imps) k (packages w);
            stdout := stdout w |}).
Proof.
  revert w. induction imps as [|imp imps IH]; intros w.
  - cbn. rewrite alter_id; [by destruct w|].
    intros p _. destruct p. unfold appendImports. cbn. by rewrite app_nil_r.
  - cbn [forEach]. rewrite bind_run. cbn [update fst snd]. rewrite IH.
    cbn [packages stdout]. rewrite alter_alter. do 2 f_equal.
    apply alter_ext. intros p _. unfold appendImports, appendImport. cbn.
    by rewrite <- app_assoc.
Qed.

(** The unit [visitGoFile] creates for the first file of a unit. *)
Lemma visitGoFile_run sched config f w :
  visitGoFile Separator Match sched config f w
  = (tt,
     match packages w !! unitPath Separator f with
     | Some _ =>
         {| packages := alter (appendImports (fileImports f)) (unitPath Separator f)
                          (packages w);
            stdout := stdout w |}
     | None =>
         {| packages :=
              <[unitPath Separator f :=
                  {| Path := unitPath Separator f; Module_ := modPrefix f;
                     Layer := (getLayerForPackage Separator Match
                                 (order_Layers sched (unitPath Separator f))
                                 (unitPath Separator f)
                                 (Filepath.ToSlash Separator (relDir f)) config start).1;
                     Imports := fileImports f; LayerDeps := ∅; ExternalDeps := ∅ |}]>
                (packages w);
            stdout := stdout w
              ++ stdout (getLayerForPackage Separator Match
                           (order_Layers sched (unitPath Separator f))
                           (unitPath Separator f)
                           (Filepath.ToSlash Separator (relDir f)) config start).2 |}
     end).
Proof.
  unfold visitGoFile. fold (unitPath Separator f).
  rewrite !bind_run. cbn [getPackages fst snd].
  destruct (packages w !! unitPath Separator f) as [p|] eqn:Hp.
  - cbn [mret M_ret fst snd]. by rewrite forEach_appendImport.
  - rewrite bind_run, getLayerForPackage_emit. cbn [fst snd newPackage].
    rewrite forEach_appendImport. cbn [packages stdout emit].
    by rewrite alter_insert_eq.
Qed.

Lemma parseProject_app sched config walk1 walk2 w :
  parseProject Separator Match sched config (walk1 ++ walk2) w
  = match (parseProject Separator Match sched config walk1 w).1 with
    | Some err => parseProject Separator Match sched config walk1 w
    | None =>
        parseProject Separator Match sched config walk2
          (parseProject Separator Match sched config walk1 w).2
    end.
Proof.
  revert w. induction walk1 as [|[f|err] walk1 IH]; intros w; cbn [app parseProject].
  - done.
  - rewrite !bind_run. apply IH.
  - done.
Qed.

Lemma parseProject_files_ok sched config files w :
  (parseProject Separator Match sched config (SourceFile <$> files) w).1 = None.
Proof.
  revert w. induction files as [|f files IH]; intros w; [done|].
  cbn [fmap list_fmap parseProject]. rewrite bind_run. apply IH.
Qed.

(** X14: the walk is all or nothing from its first error on: the files
    before the error are recorded as if the walk had ended there, the error
    is returned, and nothing that follows it is visited, whatever it is.
    A walk without error returns none. *)
Theorem parseProject_first_error
    (sched : Schedule) (config : Config) (files : list GoFile)
    (err : string) (rest : list WalkItem) (w : World) :
  parseProject Separator Match sched config
    ((SourceFile <$> files) ++ WalkError err :: rest) w
  = (Some err, (parseProject Separator Match sched config (SourceFile <$> files) w).2)
  ∧ (parseProject Separator Match sched config (SourceFile <$> files) w).1 = None.
Proof.
  split; [|apply parseProject_files_ok].
  rewrite parseProject_app, parseProject_files_ok. done.
Qed.

Lemma appendImports_appendImports a b p :
  appendImports b (appendImports a p) = appendImports (a ++ b) p.
Proof. unfold appendImports. cbn. by rewrite app_assoc. Qed.

Lemma parseProject_files_lookup sched config files w k :
  packages (parseProject Separator Match sched config (SourceFile <$> files) w).2 !! k
  = match packages w !! k with
    | Some p =>
        Some (appendImports (flat_map fileImports (filesOf Separator k files)) p)
    | None =>
        (λ f0,
           {| Path := k; Module_ := modPrefix f0;
              Layer := (getLayerForPackage Separator Match (order_Layers sched k) k
                          (Filepath.ToSlash Separator (relDir f0)) config start).1;
              Imports := flat_map fileImports (filesOf Separator k files);
              LayerDeps := ∅; ExternalDeps := ∅ |})
          <$> head (filesOf Separator k files)
    end.
Proof.
  revert w. induction files as [|f files IH]; intros w.
  - cbn. destruct (packages w !! k) as [p|]; [|done].
    f_equal. destruct p. unfold appendImports. cbn. by rewrite app_nil_r.
  - cbn [fmap list_fmap parseProject]. rewrite bind_run, visitGoFile_run.
    cbn [fst snd]. rewrite IH. clear IH. unfold filesOf.
    destruct (decide (unitPath Separator f = k)) as [Hk|Hk].
    + rewrite filter_cons_True by done. subst k.
      destruct (packages w !! unitPath Separator f) as [p|] eqn:Hp;
        cbn [packages]; cbn [flat_map head].
      * rewrite lookup_alter_eq, Hp. cbn. by rewrite appendImports_appendImports.
      * rewrite lookup_insert_eq. done.
    + rewrite filter_cons_False by done.
      destruct (packages w !! unitPath Separator f) as [p|] eqn:Hp; cbn [packages].
      * by rewrite lookup_alter_ne.
      * by rewrite lookup_insert_ne.
Qed.

(** X15: the table a walk without error builds from the empty table.
    A key holds a unit exactly when some file of the walk has it as its
    package path; the unit's [Path] is its key, its module is the module of
    the first such file, its layer is the classification made for that
    first file and never redone, its import list is the concatenation, in
    walk order, of the imports of all its files, duplicates kept, and both
    dependency tables are empty. *)
Theorem parseProject_table
    (sched : Schedule) (config : Config) (files : list GoFile) (k : string) :
  packages (parseProject Separator Match sched config (SourceFile <$> files) start).2 !! k
  = (λ f0,
       {| Path := k; Module_ := modPrefix f0;
          Layer := (getLayerForPackage Separator Match (order_Layers sched k) k
                      (Filepath.ToSlash Separator (relDir f0)) config start).1;
          Imports := flat_map fileImports (filesOf Separator k files);
          LayerDeps := ∅; ExternalDeps := ∅ |})
      <$> head (filesOf Separator k files).
Proof. by rewrite parseProject_files_lookup. Qed.

End Parsing.

(** The walk over [threeFiles] appends the imports of the second file of
    [m/domain/order] to those of the first. *)
Example parseProject_threeFiles :
  Imports <$> packages (parseProject "/" Doublestar.Match (anySchedule ["domain"])
                          twoLayers (SourceFile <$> threeFiles) start).2
                !! "m/domain/order"
  = Some ["fmt"; "m/app"; "m/app"; "errors"].
Proof. rewrite parseProject_files_lookup. reflexivity. Qed.

Lemma prefix_app (p t : string) : String.prefix p (p +:+ t) = true.
Proof. apply prefix_true_iff. by exists t. Qed.

(** X16: after a walk without error, an import that is the key of a
    discovered unit is never external: graph building records the layer of
    that unit in the importer's layer dependencies and leaves the import
    out of its external dependencies. *)
Theorem discovered_import_is_layer_dep
    (Separator : ascii) (Match : string → string → bool)
    (sched : Schedule) (config : Config) (files : list GoFile)
    (order : list string) (k imp : string) (pkg q : PackageInfo) :
  let w1 := (parseProject Separator Match sched config (SourceFile <$> files) start).2 in
  visits (packages w1) order →
  packages w1 !! k = Some pkg →
  imp ∈ Imports pkg →
  packages w1 !! imp = Some q →
  ∃ pkg',
    packages (analyzePackages order config w1).2 !! k = Some pkg'
    ∧ LayerDeps pkg' !! Layer q = Some true
    ∧ ExternalDeps pkg' !! imp = None.
Proof.
  intros w1 Hord Hpkg Himp Hq.
  assert (Hknown : knownPrefix (packages w1) imp).
  { exists imp, q. split; [done|].
    unfold w1 in Hq. rewrite parseProject_files_lookup in Hq. cbn in Hq.
    rewrite lookup_empty in Hq.
    destruct (head (filesOf Separator imp files)) as [f0|] eqn:Hhead; [|done].
    apply head_Some_elem_of, list_elem_of_filter in Hhead as [Hpath _].
    cbn in Hq. injection Hq as <-. cbn [Module_].
    rewrite <- Hpath. unfold unitPath, Strings.HasPrefix. apply prefix_app. }
  assert (Hfresh : ExternalDeps pkg = ∅).
  { unfold w1 in Hpkg. rewrite parseProject_files_lookup in Hpkg. cbn in Hpkg.
    rewrite lookup_empty in Hpkg.
    destruct (head (filesOf Separator k files)); [|done]. cbn in Hpkg. by simplify_eq. }
  exists (analyzeUnit (modulePrefixesOf (packages w1)) (packages w1) pkg).
  rewrite (analyzePackages_lookup _ _ _ _ Hord), Hpkg. split; [done|].
  unfold analyzeUnit. split.
  - rewrite LayerDeps_foldl_lookup.
    assert (Hex : existsb (contributes (modulePrefixesOf (packages w1)) (packages w1)
                             (Layer q)) (Imports pkg) = true).
    { apply existsb_exists. exists imp. split; [by apply list_elem_of_In|].
      unfold contributes.
      rewrite (proj2 (isExternal_knownPrefix _ _) Hknown), Hq.
      by rewrite bool_decide_eq_true_2. }
    by rewrite Hex.
  - rewrite ExternalDeps_foldl, Hfresh, lookup_empty.
    rewrite decide_False; [done|]. intros [_ Hext].
    by apply isExternal_not_knownPrefix in Hext.
Qed.

Lemma discovered_import_is_layer_dep_witness :
  ∃ pkg',
    packages (analyzePackages ["m/domain/order"; "m/app"] twoLayers
                (parseProject "/" Doublestar.Match threeFilesSchedule twoLayers
                   (SourceFile <$> threeFiles) start).2).2
      !! "m/domain/order" = Some pkg'
    ∧ LayerDeps pkg' !! "application" = Some true
    ∧ ExternalDeps pkg' !! "m/app" = None.
Proof.
  apply (discovered_import_is_layer_dep "/" Doublestar.Match threeFilesSchedule
           twoLayers threeFiles ["m/domain/order"; "m/app"] "m/domain/order" "m/app"
           {| Path := "m/domain/order"; Module_ := "m"; Layer := "domain";
              Imports := ["fmt"; "m/app"; "m/app"; "errors"];
              LayerDeps := ∅; ExternalDeps := ∅ |}
           {| Path := "m/app"; Module_ := "m"; Layer := "application";
              Imports := ["os"]; LayerDeps := ∅; ExternalDeps := ∅ |}).
  - split; compute_done.
  - by vm_compute.
  - apply elem_of_cons. right. constructor.
  - by vm_compute.
Defined.

(** ** The whole program *)

Section Running.

Variable Separator : ascii.
Variable Match : string → string → bool.
Variable ReadFile : string → string + string.
Variable yaml_Unmarshal : string → Config + string.
Variable Walk : string → Config → list WalkItem.

Lemma getLayerForPackage_lines order pkgPath relPath config :
  Forall isClassification
    (stdout (getLayerForPackage Separator Match order pkgPath relPath config start).2).
Proof.
  destruct (first_layer_cases Match (Layers config) order
              (Filepath.ToSlash Separator pkgPath))
    as [Hnone | (pre & layer & post & lc & -> & Hpre & Hl & Hin)].
  - rewrite (getLayerForPackage_fallback Separator Match _ _ _ _ _
               (rangeLayers_unmatched _ _ _ _ _ Hnone)).
    destruct (String.eqb relPath "."); cbn; by repeat constructor.
  - rewrite (getLayerForPackage_found Separator Match _ _ _ _ _ layer)
      by by apply (rangeLayers_first Match _ _ _ _ lc).
    cbn. by repeat constructor.
Qed.

Lemma parseProject_lines sched config walk w :
  ∃ out,
    stdout (parseProject Separator Match sched config walk w).2 = stdout w ++ out
    ∧ Forall isClassification out.
Proof.
  revert w. induction walk as [|[f|err] walk IH]; intros w; cbn [parseProject].
  - exists []. by rewrite app_nil_r.
  - rewrite bind_run, visitGoFile_run. cbn [fst snd].
    match goal with |- context [parseProject _ _ _ _ walk ?w1] =>
      destruct (IH w1) as (out & -> & Hout) end.
    destruct (packages w !! unitPath Separator f); cbn [stdout].
    + by exists out.
    + eexists. rewrite <- app_assoc. split; [done|].
      apply Forall_app. split; [apply getLayerForPackage_lines | done].
  - exists []. by rewrite app_nil_r.
Qed.

(** X17: a configuration file that cannot be read, or whose content
    cannot be parsed, ends the program in a fatal error with exit status 1
    that quotes the cause, before any file of the project is visited and
    with nothing printed. *)
Theorem main_config_error
    (sched : Schedule) (args : list (Flag * string)) (w : World)
    (projectRoot configPath err : string) :
  flagParse args EmptyString "config.yaml" = (projectRoot, configPath) →
  projectRoot ≠ EmptyString → configPath ≠ EmptyString →
  (ReadFile configPath = inr err →
     main Separator Match ReadFile yaml_Unmarshal Walk sched args w
     = (Fatal ("Failed to load config: " +:+ "failed to read config file: " +:+ err), w))
  ∧ (∀ data, ReadFile configPath = inl data → yaml_Unmarshal data = inr err →
       main Separator Match ReadFile yaml_Unmarshal Walk sched args w
       = (Fatal ("Failed to load config: " +:+ "failed to parse config file: " +:+ err), w))
  ∧ exitStatus (Fatal err) = 1.
Proof.
  intros Hflags Hroot Hconf. unfold main, loadConfig. rewrite Hflags.
  rewrite (proj2 (String.eqb_neq _ _) Hroot), (proj2 (String.eqb_neq _ _) Hconf).
  cbn [orb]. split; [|split; [|done]].
  - by intros ->.
  - by intros data -> ->.
Qed.

(** X18: an error of the walk ends the program in a fatal error with exit
    status 1 that quotes it.  The dependency analysis never starts: the
    only lines printed are the classification lines of the files visited
    before the error, and no violation is reported. *)
Theorem main_walk_error
    (sched : Schedule) (args : list (Flag * string)) (w : World)
    (projectRoot configPath : string) (config : Config)
    (files : list GoFile) (err : string) (rest : list WalkItem) :
  flagParse args EmptyString "config.yaml" = (projectRoot, configPath) →
  projectRoot ≠ EmptyString → configPath ≠ EmptyString →
  loadConfig ReadFile yaml_Unmarshal configPath = inl config →
  Walk projectRoot config = (SourceFile <$> files) ++ WalkError err :: rest →
  (main Separator Match ReadFile yaml_Unmarshal Walk sched args w).1
  = Fatal ("Failed to parse project: " +:+ err)
  ∧ ∃ out,
      stdout (main Separator Match ReadFile yaml_Unmarshal Walk sched args w).2
      = stdout w ++ out
      ∧ Forall isClassification out.
Proof.
  intros Hflags Hroot Hconf Hload Hwalk. unfold main. rewrite Hflags.
  rewrite (proj2 (String.eqb_neq _ _) Hroot), (proj2 (String.eqb_neq _ _) Hconf).
  cbn [orb]. rewrite Hload, bind_run, Hwalk, parseProject_app, parseProject_files_ok.
  cbn [parseProject mret M_ret fst snd]. split; [done|].
  apply parseProject_lines.
Qed.

(** X19: once the flags are given, the configuration loads and the walk
    meets no error, the program returns with exit status 0 whatever the
    rules say and however many violations it reports; its final state is
    that of the walk, then graph building, then rule evaluation. *)
Theorem main_returns
    (sched : Schedule) (args : list (Flag * string)) (w : World)
    (projectRoot configPath : string) (config : Config) (files : list GoFile) :
  flagParse args EmptyString "config.yaml" = (projectRoot, configPath) →
  projectRoot ≠ EmptyString → configPath ≠ EmptyString →
  loadConfig ReadFile yaml_Unmarshal configPath = inl config →
  Walk projectRoot config = SourceFile <$> files →
  main Separator Match ReadFile yaml_Unmarshal Walk sched args w
  = (Returned,
     (checkDependencies (order_check sched) (order_LayerDeps sched)
        (order_ExternalDeps sched) config
        (analyzePackages (order_analyze sched) config
           (parseProject Separator Match sched config (SourceFile <$> files) w).2).2).2)
  ∧ exitStatus Returned = 0.
Proof.
  intros Hflags Hroot Hconf Hload Hwalk. split; [|done]. unfold main. rewrite Hflags.
  rewrite (proj2 (String.eqb_neq _ _) Hroot), (proj2 (String.eqb_neq _ _) Hconf).
  cbn [orb]. rewrite Hload, bind_run, Hwalk.
  pose proof (parseProject_files_ok Separator Match sched config files w) as Hok.
  destruct (parseProject Separator Match sched config (SourceFile <$> files) w)
    as [r w1]. cbn in Hok. subst r. cbn [fst snd].
  rewrite !bind_run. cbn [mret M_ret fst snd].
  by destruct (analyzePackages _ _ w1) as [[] w2], (checkDependencies _ _ _ _ _) as [[] w3].
Qed.

End Running.

Lemma main_config_error_witness :
  main "/" Doublestar.Match onlyDefaultConfig parseTwoLayers oneFile oneFileSchedule
    [(flag_project_root, "proj"); (flag_config, "missing.yaml")] start
  = (Fatal ("Failed to load config: " +:+ "failed to read config file: "
            +:+ "no such file"), start).
Proof.
  apply (proj1 (main_config_error "/" Doublestar.Match onlyDefaultConfig
                  parseTwoLayers oneFile oneFileSchedule
                  [(flag_project_root, "proj"); (flag_config, "missing.yaml")] start
                  "proj" "missing.yaml" "no such file" eq_refl
                  ltac:(discriminate) ltac:(discriminate))).
  reflexivity.
Defined.

Lemma main_walk_error_witness :
  (main "/" Doublestar.Match onlyDefaultConfig parseTwoLayers failingWalk
     threeFilesSchedule [(flag_project_root, "proj")] start).1
  = Fatal ("Failed to parse project: "
           +:+ "failed to parse file proj/x.go: expected 'package'")
  ∧ ∃ out,
      stdout (main "/" Doublestar.Match onlyDefaultConfig parseTwoLayers failingWalk
                threeFilesSchedule [(flag_project_root, "proj")] start).2
      = stdout start ++ out
      ∧ Forall isClassification out.
Proof.
  apply (main_walk_error "/" Doublestar.Match onlyDefaultConfig parseTwoLayers
           failingWalk threeFilesSchedule [(flag_project_root, "proj")] start
           "proj" "config.yaml" twoLayers threeFiles
           "failed to parse file proj/x.go: expected 'package'"
           [SourceFile orderFile]);
    [reflexivity | discriminate | discriminate | reflexivity | reflexivity].
Defined.

Lemma main_returns_witness :
  (main "/" Doublestar.Match onlyDefaultConfig parseTwoLayers threeFilesWalk
     threeFilesSchedule [(flag_project_root, "proj")] start).1 = Returned
  ∧ LayerViolation "m/domain/order" "domain" "application"
    ∈ stdout (main "/" Doublestar.Match onlyDefaultConfig parseTwoLayers threeFilesWalk
                threeFilesSchedule [(flag_project_root, "proj")] start).2.
Proof.
  destruct (main_returns "/" Doublestar.Match onlyDefaultConfig parseTwoLayers
              threeFilesWalk threeFilesSchedule [(flag_project_root, "proj")] start
              "proj" "config.yaml" twoLayers threeFiles)
    as [Hmain _];
    [reflexivity | discriminate | discriminate | reflexivity | reflexivity |].
  rewrite Hmain. split; [reflexivity|]. cbn [snd].
  apply list_elem_of_In. vm_compute. auto 10.
Defined.

(** ** The walk of the project tree *)

Lemma Node_nested_ind (P : Node → Prop) :
  (∀ name, P (NFile name)) →
  (∀ name readErr entries, Forall P entries → P (NDir name readErr entries)) →
  (∀ name err, P (NBroken name err)) →
  ∀ n, P n.
Proof.
  intros Hfile Hdir Hbroken. fix IH 1.
  intros [name|name readErr entries|name err].
  - apply Hfile.
  - apply Hdir. induction entries as [|e entries IHentries]; constructor.
    + apply IH.
    + apply IHentries.
  - apply Hbroken.
Qed.

Section WalkFacts.

Variable Separator : ascii.
Variable Match : string → string → bool.
Variable Join : string → string → string.
Variable Rel : string → string → string.
Variable Dir : string → string.
Variable findModule : string → (string * string) + string.
Variable ParseFile : string → list string + string.
Variable sched : Schedule.
Variable root : string.
Variable config : Config.

Local Notation walk' :=
  (walk Separator Match Join Rel Dir findModule ParseFile sched root config).
Local Notation walkFn' :=
  (walkFn Separator Match Rel Dir findModule ParseFile sched root config).
Local Notation walkEntries' :=
  (walkEntries Separator Match Join Rel Dir findModule ParseFile).
Local Notation reached' :=
  (reached Match Join Rel Dir findModule ParseFile root config).
Local Notation parse' := (parseProject Separator Match sched config).

Lemma walk_file path name w :
  ∃ res,
    walkFn' path (inl (name, false)) w
    = (res, (parse' (reached' path (NFile name)) w).2)
    ∧ agrees (NFile name) res (parse' (reached' path (NFile name)) w).1.
Proof.
  cbn [walkFn reached]. destruct (Strings.HasSuffix name ".go"); cbn [negb].
  - unfold fileItem. destruct (findModule path) as [[modDir pfx]|err].
    + destruct (ParseFile path) as [imports|err].
      * cbn [parseProject]. rewrite !bind_run. cbn [mret M_ret fst snd].
        eexists. split; [done|]. by left.
      * eexists. split; [done|]. done.
    + eexists. split; [done|]. done.
  - eexists. split; [done|]. by left.
Qed.

Lemma walkEntries_reached path entries :
  Forall (λ n, ∀ p w, ∃ res,
            walk' p n w = (res, (parse' (reached' p n) w).2)
            ∧ agrees n res (parse' (reached' p n) w).1) entries →
  ∀ w, ∃ res,
    walkEntries' walk' sched root config path entries w
    = (res, (parse' (flat_map (λ e, reached' (Join path (nodeName e)) e) entries) w).2)
    ∧ match (parse' (flat_map (λ e, reached' (Join path (nodeName e)) e) entries) w).1 with
      | Some e => res = WalkErr e
      | None => res = WalkNil
      end.
Proof.
  induction 1 as [|e entries He _ IH]; intros w.
  - exists WalkNil. done.
  - cbn [walkEntries flat_map]. rewrite parseProject_app.
    destruct (He (Join path (nodeName e)) w) as (res & Hwalk & Hres).
    destruct e as [name|name readErr es|name err].
    + rewrite bind_run, Hwalk. cbn [fst snd].
      destruct (parse' (reached' _ (NFile name)) w) as [[err|] w1]; cbn in *.
      * subst res. by eexists.
      * destruct Hres as [->|[-> [=]]]. apply IH.
    + rewrite bind_run, Hwalk. cbn [fst snd].
      destruct (parse' (reached' _ (NDir name readErr es)) w) as [[err|] w1]; cbn in *.
      * subst res. by eexists.
      * destruct Hres as [->|[-> _]]; apply IH.
    + rewrite bind_run. cbn. by eexists.
Qed.

Lemma walk_reached n :
  ∀ path w, ∃ res,
    walk' path n w = (res, (parse' (reached' path n) w).2)
    ∧ agrees n res (parse' (reached' path n) w).1.
Proof.
  induction n as [name|name readErr entries IH|name err] using Node_nested_ind;
    intros path w.
  - apply walk_file.
  - cbn [walk reached]. rewrite bind_run. destruct readErr as [err|].
    + cbn. by eexists.
    + cbn [walkFn]. destruct (excluded Match config (Rel root path)).
      * cbn. exists SkipDir. split; [done|]. by right.
      * cbn [mret M_ret fst snd].
        destruct (walkEntries_reached path entries IH w) as (res & -> & Hres).
        exists res. split; [done|]. unfold agrees.
        destruct (parse' _ w).1; [done | by left].
  - cbn. by eexists.
Qed.

(** X20: the walk of the project tree is the flat walk over the items it
    reaches: the [.go] files and the errors met, in lexical order, with
    the content of every excluded directory left out.  Files of another
    suffix count for nothing, even where no module or no parser would
    accept them. *)
Theorem parseProjectTree_reached (tree : Node) (w : World) :
  parseProjectTree Separator Match Join Rel Dir findModule ParseFile sched root config
    tree w
  = parseProject Separator Match sched config
      (reached Match Join Rel Dir findModule ParseFile root config root tree) w.
Proof.
  unfold parseProjectTree. rewrite bind_run.
  destruct (walk_reached tree root w) as (res & -> & Hres). cbn [fst snd mret M_ret].
  destruct (parse' (reached' root tree) w) as [[err|] w1]; cbn in *.
  - by subst res.
  - by destruct Hres as [->|[-> _]].
Qed.

(** X21: a directory that can be read and whose path relative to the
    root matches an exclude pattern is skipped whole: whatever it holds,
    unparsable files and unreadable entries included, the walk leaves the
    table and the output as they are and goes on after it.  A directory
    that cannot be read ends the walk with the error even when its path is
    excluded, the error being looked at first. *)
Theorem walk_excluded_directory
    (path name : string) (entries : list Node) (err : string) (w : World) :
  excluded Match config (Rel root path) = true →
  walk Separator Match Join Rel Dir findModule ParseFile sched root config
    path (NDir name None entries) w = (SkipDir, w)
  ∧ walk Separator Match Join Rel Dir findModule ParseFile sched root config
      path (NDir name (Some err) entries) w = (WalkErr err, w).
Proof.
  intros Hex. cbn [walk]. rewrite !bind_run. cbn [walkFn]. by rewrite Hex.
Qed.

End WalkFacts.

Lemma walk_excluded_directory_witness :
  walk "/" Doublestar.Match slashJoin dropRoot parentOf moduleOfProj importsFmt
    (anySchedule ["domain"]) "proj" vendorConfig
    "proj/vendor" (NDir "vendor" None [NFile "bad.go"; NBroken "x" "permission denied"])
    start
  = (SkipDir, start).
Proof.
  apply (proj1 (walk_excluded_directory "/" Doublestar.Match slashJoin dropRoot
                  parentOf moduleOfProj importsFmt (anySchedule ["domain"]) "proj"
                  vendorConfig "proj/vendor" "vendor"
                  [NFile "bad.go"; NBroken "x" "permission denied"] "unused" start
                  eq_refl)).
Defined.

(** ** Module lookup *)

Section ModuleLookupFacts.

Variable Join : string → string → string.
Variable Dir : string → string.
Variable Stat : string → bool.
Variable ReadFile : string → string + string.
Variable modfile_Parse : string → string → option string + string.

Local Notation from' := (findNearestModuleFrom Join Dir Stat ReadFile modfile_Parse).

Lemma iter_Dir_fixed (dir : string) (j : nat) :
  Dir dir = dir → Nat.iter j Dir dir = dir.
Proof.
  intros H. induction j as [|j IH]; [done|]. by rewrite Nat.iter_succ, IH.
Qed.

Lemma iter_succ_r (dir : string) (j : nat) :
  Nat.iter (S j) Dir dir = Nat.iter j Dir (Dir dir).
Proof. apply Nat.iter_succ_r. Qed.

Lemma findNearestModuleFrom_found fuel filePath dir j :
  (∀ i, i < j → Stat (Join (Nat.iter i Dir dir) "go.mod") = false) →
  Stat (Join (Nat.iter j Dir dir) "go.mod") = true →
  j < fuel →
  from' fuel filePath dir
  = Some (moduleAt Join ReadFile modfile_Parse (Nat.iter j Dir dir)).
Proof.
  revert fuel dir. induction j as [|j IH]; intros fuel dir Hbelow Hat Hfuel.
  - destruct fuel as [|fuel]; [lia|]. change (Nat.iter 0 Dir dir) with dir in *.
    cbn [findNearestModuleFrom]. rewrite Hat. unfold moduleAt.
    destruct (ReadFile _) as [data|err]; [|done].
    by destruct (modfile_Parse _ data) as [[m|]|err].
  - destruct fuel as [|fuel]; [lia|]. cbn [findNearestModuleFrom].
    pose proof (Hbelow 0 ltac:(lia)) as H0. change (Nat.iter 0 Dir dir) with dir in H0.
    rewrite H0.
    destruct (String.eqb (Dir dir) dir) eqn:Hfix.
    + apply String.eqb_eq in Hfix.
      rewrite (iter_Dir_fixed dir (S j) Hfix) in Hat. congruence.
    + rewrite iter_succ_r. apply IH; [|by rewrite <- iter_succ_r|lia].
      intros i Hi. rewrite <- iter_succ_r. apply Hbelow. lia.
Qed.

Lemma findNearestModuleFrom_not_found fuel filePath dir j :
  (∀ i, i ≤ j → Stat (Join (Nat.iter i Dir dir) "go.mod") = false) →
  Dir (Nat.iter j Dir dir) = Nat.iter j Dir dir →
  j < fuel →
  from' fuel filePath dir
  = Some (FindError ("go.mod not found for " +:+ filePath)).
Proof.
  revert fuel dir. induction j as [|j IH]; intros fuel dir Hbelow Hfix Hfuel.
  - destruct fuel as [|fuel]; [lia|]. cbn [findNearestModuleFrom].
    pose proof (Hbelow 0 ltac:(lia)) as H0. change (Nat.iter 0 Dir dir) with dir in H0.
    rewrite H0. change (Nat.iter 0 Dir dir) with dir in Hfix.
    by rewrite Hfix, String.eqb_refl.
  - destruct fuel as [|fuel]; [lia|]. cbn [findNearestModuleFrom].
    pose proof (Hbelow 0 ltac:(lia)) as H0. change (Nat.iter 0 Dir dir) with dir in H0.
    rewrite H0.
    destruct (String.eqb (Dir dir) dir) eqn:Hd; [done|].
    apply IH; [|by rewrite <- !iter_succ_r|lia].
    intros i Hi. rewrite <- iter_succ_r. apply Hbelow. lia.
Qed.

(** X22: [findNearestModule] answers with the nearest [go.mod] above the
    file: if the [j]-th directory above the file's directory is the first
    that holds a [go.mod], then, tried on more than [j] directories, the
    lookup ends there, with that directory and the module path declared by
    that file, or with the error of reading or parsing it, or in a panic
    when it declares no module; a [go.mod] further up is never looked
    at. *)
Theorem findNearestModule_nearest (fuel : nat) (filePath : string) (j : nat) :
  (∀ i, i < j → Stat (Join (Nat.iter i Dir (Dir filePath)) "go.mod") = false) →
  Stat (Join (Nat.iter j Dir (Dir filePath)) "go.mod") = true →
  j < fuel →
  findNearestModule Join Dir Stat ReadFile modfile_Parse fuel filePath
  = Some (moduleAt Join ReadFile modfile_Parse (Nat.iter j Dir (Dir filePath))).
Proof. apply findNearestModuleFrom_found. Qed.

(** X23: when no directory from the file's own up to the one
    [filepath.Dir] no longer leaves holds a [go.mod], the lookup, tried on
    enough directories, ends with the error [go.mod not found] naming the
    file. *)
Theorem findNearestModule_not_found (fuel : nat) (filePath : string) (j : nat) :
  (∀ i, i ≤ j → Stat (Join (Nat.iter i Dir (Dir filePath)) "go.mod") = false) →
  Dir (Nat.iter j Dir (Dir filePath)) = Nat.iter j Dir (Dir filePath) →
  j < fuel →
  findNearestModule Join Dir Stat ReadFile modfile_Parse fuel filePath
  = Some (FindError ("go.mod not found for " +:+ filePath)).
Proof. apply findNearestModuleFrom_not_found. Qed.

End ModuleLookupFacts.

Lemma findNearestModule_nearest_witness :
  findNearestModule slashJoin parentOf onlyProjGoMod readGoMod parseGoMod
    5 "proj/domain/a.go"
  = Some (FoundModule "proj" "m").
Proof.
  apply (findNearestModule_nearest slashJoin parentOf onlyProjGoMod readGoMod
           parseGoMod 5 "proj/domain/a.go" 1).
  - intros i Hi. assert (i = 0) as -> by lia. reflexivity.
  - reflexivity.
  - lia.
Defined.

Lemma findNearestModule_not_found_witness :
  findNearestModule slashJoin parentOf (λ _, false) readGoMod parseGoMod
    5 "proj/domain/a.go"
  = Some (FindError ("go.mod not found for " +:+ "proj/domain/a.go")).
Proof.
  apply (findNearestModule_not_found slashJoin parentOf (λ _, false) readGoMod
           parseGoMod 5 "proj/domain/a.go" 2).
  - done.
  - reflexivity.
  - lia.
Defined.

(** ** The root package and the usage check *)

Lemma length_app_s (a b : string) :
  String.length (a +:+ b) = String.length a + String.length b.
Proof.
  induction a as [|c a IH]; [done|]. rewrite app_cons_s. cbn. by rewrite IH.
Qed.

Lemma unitPath_longer Separator f :
  String.length (modPrefix f) < String.length (unitPath Separator f).
Proof.
  unfold unitPath. rewrite length_app_s, app_cons_s, app_nil_s. cbn. lia.
Qed.

(** X24: in a project whose files all belong to one module [m], no unit
    is filed under the module path [m] itself: every key is [m], a slash
    and a relative path, the root package sitting under [m/.].  An import
    of the root package by its import path [m] therefore starts with a
    module prefix, finds no unit, and is dropped: graph building records
    nothing for it and prints nothing. *)
Theorem root_package_import_dropped
    (Separator : ascii) (Match : string → string → bool)
    (sched : Schedule) (config : Config) (files : list GoFile) (m : string)
    (k : string) (pkg : PackageInfo) :
  let w1 := (parseProject Separator Match sched config (SourceFile <$> files) start).2 in
  files ≠ [] →
  Forall (λ f, modPrefix f = m) files →
  packages w1 !! m = None
  ∧ analyzeImport (modulePrefixesOf (packages w1)) k pkg m w1 = (tt, w1).
Proof.
  intros w1 Hne Hall.
  assert (Hnone : packages w1 !! m = None).
  { unfold w1. rewrite parseProject_files_lookup. cbn. rewrite lookup_empty.
    destruct (head (filesOf Separator m files)) as [f0|] eqn:Hhead; [|done].
    apply head_Some_elem_of, list_elem_of_filter in Hhead as [Hpath Hin].
    rewrite Forall_forall in Hall. specialize (Hall f0 Hin).
    pose proof (unitPath_longer Separator f0) as Hlen.
    rewrite Hpath, Hall in Hlen. lia. }
  split; [done|].
  assert (Hknown : knownPrefix (packages w1) m).
  { destruct files as [|f0 files']; [done|].
    apply Forall_cons in Hall as [Hf0 _].
    pose proof (parseProject_files_lookup Separator Match sched config (f0 :: files')
                  start (unitPath Separator f0)) as Hlook.
    unfold filesOf in Hlook. rewrite filter_cons_True in Hlook by done.
    cbn [start packages head] in Hlook. rewrite lookup_empty in Hlook.
    cbn [fmap option_fmap option_map] in Hlook.
    eexists _, _. split; [exact Hlook|]. cbn [Module_]. rewrite Hf0.
    unfold Strings.HasPrefix. apply prefix_true_iff. exists EmptyString.
    by rewrite app_empty_r. }
  rewrite analyzeImport_run. unfold stepPkg, importLines.
  rewrite (proj2 (isExternal_knownPrefix _ m) Hknown), Hnone.
  rewrite app_nil_r, alter_id by done. by destruct w1.
Qed.

Lemma root_package_import_dropped_witness :
  packages (parseProject "/" Doublestar.Match threeFilesSchedule twoLayers
              (SourceFile <$> threeFiles) start).2 !! "m" = None
  ∧ analyzeImport
      (modulePrefixesOf
         (packages (parseProject "/" Doublestar.Match threeFilesSchedule twoLayers
                      (SourceFile <$> threeFiles) start).2))
      "m/app" (freshUnit "m/app" "application" ["os"]) "m"
      (parseProject "/" Doublestar.Match threeFilesSchedule twoLayers
         (SourceFile <$> threeFiles) start).2
    = (tt, (parseProject "/" Doublestar.Match threeFilesSchedule twoLayers
              (SourceFile <$> threeFiles) start).2).
Proof.
  apply (root_package_import_dropped "/" Doublestar.Match threeFilesSchedule
           twoLayers threeFiles "m").
  - discriminate.
  - by repeat constructor.
Defined.

(** X25: the program ends in the usage error exactly when the value left
    for [project-root] or for [config] after the command line is read, the
    last occurrence of a flag standing, is the empty string; an explicit
    empty [config] is refused like a missing [project-root], and no other
    failure of the program carries the usage message. *)
Theorem main_usage_iff
    (Separator : ascii) (Match : string → string → bool)
    (ReadFile : string → string + string)
    (yaml_Unmarshal : string → Config + string)
    (Walk : string → Config → list WalkItem)
    (sched : Schedule) (args : list (Flag * string)) (w : World) :
  (main Separator Match ReadFile yaml_Unmarshal Walk sched args w).1 = Fatal usage
  ↔ (flagParse args EmptyString "config.yaml").1 = EmptyString
    ∨ (flagParse args EmptyString "config.yaml").2 = EmptyString.
Proof.
  unfold main.
  destruct (flagParse args EmptyString "config.yaml") as [projectRoot configPath].
  cbn [fst snd].
  destruct (String.eqb projectRoot EmptyString) eqn:Hroot.
  { apply String.eqb_eq in Hroot. cbn. naive_solver. }
  destruct (String.eqb configPath EmptyString) eqn:Hconf.
  { apply String.eqb_eq in Hconf. cbn. naive_solver. }
  apply String.eqb_neq in Hroot, Hconf. cbn [orb]. split; [|naive_solver].
  intros Hmain. exfalso.
  destruct (loadConfig ReadFile yaml_Unmarshal configPath) as [config|err].
  - rewrite bind_run in Hmain.
    destruct (parseProject _ _ _ _ _ w) as [[err|] w1]; cbn [fst snd] in Hmain.
    + cbn in Hmain. injection Hmain as Hmsg. by vm_compute in Hmsg.
    + rewrite !bind_run in Hmain. by cbn in Hmain.
  - cbn in Hmain. injection Hmain as Hmsg. by vm_compute in Hmsg.
Qed.

(** ** Every verdict once *)

Lemma NoDup_flat_map_keyed {A B} (f : A → list B) (key : B → A) (l : list A) :
  NoDup l →
  (∀ x y, x ∈ l → y ∈ f x → key y = x) →
  (∀ x, x ∈ l → NoDup (f x)) →
  NoDup (flat_map f l).
Proof.
  induction 1 as [|x l Hx Hnd IH]; intros Hkey Hf; [constructor|].
  cbn [flat_map]. apply NoDup_app. split; [|split].
  - apply Hf. constructor.
  - intros y Hy Hy'. apply elem_of_flat_map in Hy' as (x' & Hx' & Hy').
    apply Hx. rewrite <- (Hkey x y) by (done || constructor).
    by rewrite (Hkey x' y) by (done || by constructor).
  - apply IH.
    + intros x' y Hx' Hy. apply Hkey; [by constructor | done].
    + intros x' Hx'. apply Hf. by constructor.
Qed.

Lemma checkLines_linePkg oLD oED config pkgs k pkg line :
  pkgs !! k = Some pkg → line ∈ checkLines oLD oED config pkgs k →
  linePkg line = Path pkg.
Proof.
  intros Hpkg. unfold checkLines. rewrite Hpkg, elem_of_app, !elem_of_flat_map.
  intros [(L & _ & Hin)|(e & _ & Hin)].
  - destruct (LayerDeps pkg !! L); [|by apply elem_of_nil in Hin].
    apply elem_of_app in Hin as [Hin|Hin].
    + destruct (denied _ _ _); [|by apply elem_of_nil in Hin].
      by apply list_elem_of_singleton in Hin as ->.
    + by apply list_elem_of_singleton in Hin as ->.
  - destruct (ExternalDeps pkg !! e); [|by apply elem_of_nil in Hin].
    destruct (denied _ _ _); [|by apply elem_of_nil in Hin].
    by apply list_elem_of_singleton in Hin as ->.
Qed.

Lemma checkLines_NoDup oLD oED config pkgs k pkg :
  pkgs !! k = Some pkg → NoDup (oLD k) → NoDup (oED k) →
  NoDup (checkLines oLD oED config pkgs k).
Proof.
  intros Hpkg HL HE. unfold checkLines. rewrite Hpkg.
  apply NoDup_app. split; [|split].
  - apply (NoDup_flat_map_keyed _ lineDep); [done|..].
    + intros L line _ Hin.
      destruct (LayerDeps pkg !! L); [|by apply elem_of_nil in Hin].
      apply elem_of_app in Hin as [Hin|Hin].
      * destruct (denied _ _ _); [|by apply elem_of_nil in Hin].
        by apply list_elem_of_singleton in Hin as ->.
      * by apply list_elem_of_singleton in Hin as ->.
    + intros L _. destruct (LayerDeps pkg !! L); [|constructor].
      destruct (denied _ _ _); cbn; repeat constructor.
      * rewrite list_elem_of_singleton. discriminate.
      * apply not_elem_of_nil.
      * apply not_elem_of_nil.
  - intros line Hl He.
    apply elem_of_flat_map in Hl as (L & _ & Hl).
    apply elem_of_flat_map in He as (e & _ & He).
    destruct (ExternalDeps pkg !! e); [|by apply elem_of_nil in He].
    destruct (denied _ (Layer pkg) e); [|by apply elem_of_nil in He].
    apply list_elem_of_singleton in He as ->.
    destruct (LayerDeps pkg !! L); [|by apply elem_of_nil in Hl].
    apply elem_of_app in Hl as [Hl|Hl].
    + destruct (denied _ _ _); [|by apply elem_of_nil in Hl].
      by apply list_elem_of_singleton in Hl.
    + by apply list_elem_of_singleton in Hl.
  - apply (NoDup_flat_map_keyed _ lineDep); [done|..].
    + intros e line _ Hin.
      destruct (ExternalDeps pkg !! e); [|by apply elem_of_nil in Hin].
      destruct (denied _ _ _); [|by apply elem_of_nil in Hin].
      by apply list_elem_of_singleton in Hin as ->.
    + intros e _. destruct (ExternalDeps pkg !! e); [|constructor].
      destruct (denied _ _ _); repeat constructor. apply not_elem_of_nil.
Qed.

(** X26: on a table that files every unit under its own [Path], as the
    walk builds it, [checkDependencies] prints no line twice: each denied
    edge is reported once and each layer edge traced once. *)
Theorem checkDependencies_prints_once
    (order : list string) (orderLayerDeps orderExternalDeps : string → list string)
    (config : Config) (w : World) :
  visits (packages w) order →
  validCheck w orderLayerDeps orderExternalDeps →
  (∀ k pkg, packages w !! k = Some pkg → Path pkg = k) →
  ∃ out,
    checkDependencies order orderLayerDeps orderExternalDeps config w = (tt, emit out w)
    ∧ NoDup out.
Proof.
  intros Hord Hvalid Hkeys. eexists. split; [apply checkDependencies_run|].
  apply (NoDup_flat_map_keyed _ linePkg); [apply Hord|..].
  - intros k line Hk Hline.
    apply (visits_elem_of _ _ _ Hord) in Hk as [pkg Hpkg].
    rewrite (checkLines_linePkg _ _ _ _ _ _ _ Hpkg Hline). by apply Hkeys.
  - intros k Hk. apply (visits_elem_of _ _ _ Hord) in Hk as [pkg Hpkg].
    destruct (Hvalid k pkg Hpkg) as [[HL _] [HE _]].
    by apply (checkLines_NoDup _ _ _ _ _ pkg).
Qed.

Lemma checkDependencies_prints_once_witness :
  ∃ out,
    checkDependencies ["m/domain/a"] (λ _, ["domain"; "application"]) (λ _, ["fmt"])
      twoLayers checkedWorld = (tt, emit out checkedWorld)
    ∧ NoDup out.
Proof.
  apply checkDependencies_prints_once.
  - split; compute_done.
  - apply validCheck_checkedWorld.
  - intros k pkg Hk. cbn in Hk. rewrite lookup_insert in Hk.
    case_decide; [|by rewrite lookup_empty in Hk]. by simplify_eq.
Defined.
